(** * Repository pool of xbps: lib/repository_pool.c

    A shallow embedding of the repository pool routines
    ([xbps_repository_pool_init], [xbps_repository_pool_release],
    [xbps_repository_pool_foreach] and their static helpers) together with
    the properties the design document states about them.

    The file-scope variables [rpool_queue] and [repolist_initialized] and
    the process handle returned by [xbps_handle_get] form an explicit
    [state] record that every routine takes and returns.  Everything the
    routines call outside the file (proplib, libc, the xbps utilities) is an
    oracle of the [world] record; an oracle that fails yields the [errno]
    value it leaves behind. *)

From Stdlib Require Import ZArith List String Ascii Bool Arith Lia.
Import ListNotations.

Local Open Scope string_scope.
Local Open Scope list_scope.

(** ** errno values *)

(** Modelled from the spec: the codes of <errno.h> the pool names, "not
    found" (ENOENT) and "unsupported" (ENOTSUP), and EIO as a sample of the
    other failures, with the numbers Linux gives them. *)
Definition ENOENT : Z := 2.
Definition EIO : Z := 5.
Definition ENOTSUP : Z := 95.

(** ** size_t arithmetic

    [ntotal] and [nmissing] are [size_t]: 64 bits wide on LP64, with
    wrap-around on overflow and on subtraction. *)

Definition size_modulus : Z := 2 ^ 64.
Definition size_wrap (z : Z) : Z := (z mod size_modulus)%Z.

(** ** Data *)

(** Addresses returned by [malloc]. *)
Definition addr := nat.

(** An internalized repository index dictionary ([prop_dictionary_t]); the
    pool never looks inside, it is identified by an opaque handle. *)
Definition prop_dictionary := nat.

(** Modelled from the spec: [struct repository_pool_index], declared in
    xbps_api.h, which is not among the sources.  An entry holds the
    location string it owns ([rpi_uri]) and the index dictionary it owns
    ([rpi_repod]); these are the two fields the pool uses. *)
Record repository_pool_index := {
  rpi_uri : string;
  rpi_repod : prop_dictionary
}.

(** [struct repository_pool]: a queue node.  [rp_addr] is the address of
    the node itself; its [rp_entries] link is given by the position of the
    node in the queue (see [sqe_lookup]). *)
Record repository_pool := {
  rp_addr : addr;
  rpi : repository_pool_index
}.

(** A proplib array of strings.  proplib objects are reference counted:
    [pa_refcnt] is the number of references still held, and an object whose
    count dropped to zero has been destroyed. *)
Record prop_array := {
  pa_refcnt : nat;
  pa_items : list string
}.

(** Modelled from the spec: [struct xbps_handle], declared in xbps_api.h,
    which is not among the sources, restricted to the field the pool
    reads: the ordered list of configured repository locations.  [None] is
    the NULL pointer. *)
Record xbps_handle := {
  repos_array : option prop_array
}.

(** The state the routines share: the handle, the static queue and the
    static flag. *)
Record state := {
  xhp : xbps_handle;
  rpool_queue : list repository_pool;
  repolist_initialized : bool
}.

(** ** Collaborators

    Each oracle that is called once per configured repository takes the
    index of that repository in the array, so that two calls made for the
    same URI at different positions may answer differently.  A failing
    oracle answers [inr e] (or [Some e]) where [e] is the value of [errno]
    after the call. *)
Record world := {
  un_machine : string;                          (* uname(): un.machine *)
  prop_array_iterator_errno : option Z;         (* Some e: NULL returned *)
  xbps_pkg_index_plist : nat -> string -> string + Z;
  access : nat -> string -> Z;                  (* access(plist, R_OK) *)
  xbps_repository_sync_pkg_index : nat -> string -> Z;
  malloc_rpool : nat -> addr + Z;               (* malloc(sizeof(struct repository_pool)) *)
  malloc_rpi : nat -> addr + Z;                 (* malloc(sizeof(struct repository_pool_index)) *)
  prop_string_cstring_errno : nat -> option Z;  (* Some e: NULL returned *)
  prop_dictionary_internalize_from_zfile : nat -> string -> prop_dictionary + Z
}.

(** [prop_string_cstring] returns a fresh copy of the string, or NULL. *)
Definition prop_string_cstring (w : world) (i : nat) (s : string) : string + Z :=
  match prop_string_cstring_errno w i with
  | None => inl s
  | Some e => inr e
  end.

(** [prop_object_release]: drops one reference. *)
Definition prop_object_release (a : prop_array) : prop_array :=
  {| pa_refcnt := pred (pa_refcnt a); pa_items := pa_items a |}.

(** ** The queue macros *)

(** Modelled from the spec: the SIMPLEQ macros of queue.h, which is not
    among the sources.  The registry is an ordered sequence of entries; a
    new entry is appended at the tail. *)
Definition SIMPLEQ_INSERT_TAIL (q : list repository_pool) (elm : repository_pool)
  : list repository_pool :=
  q ++ [elm].

(** Modelled from the spec: SIMPLEQ_FIRST of queue.h, the reference to the
    head entry (NULL for an empty registry). *)
Definition SIMPLEQ_FIRST (q : list repository_pool) : option addr :=
  match q with
  | [] => None
  | elm :: _ => Some (rp_addr elm)
  end.

(** Modelled from the spec: SIMPLEQ_REMOVE of queue.h, unlinking the entry
    at address [p]; the other entries keep their order. *)
Fixpoint SIMPLEQ_REMOVE (q : list repository_pool) (p : addr) : list repository_pool :=
  match q with
  | [] => []
  | elm :: q' => if Nat.eqb (rp_addr elm) p then q' else elm :: SIMPLEQ_REMOVE q' p
  end.

(** Modelled from the spec: the [rp_entries] link that SIMPLEQ_ENTRY of
    queue.h adds to a node.  Dereferencing the node pointer [p] yields the
    node stored at [p] and its link to the next entry; it yields [None]
    when no node of the queue lives at [p] (the node was unlinked and
    freed, the pointer is dangling). *)
Fixpoint sqe_lookup (q : list repository_pool) (p : addr)
  : option (repository_pool * option addr) :=
  match q with
  | [] => None
  | elm :: q' =>
      if Nat.eqb (rp_addr elm) p then Some (elm, SIMPLEQ_FIRST q')
      else sqe_lookup q' p
  end.

(** ** sync_remote_repo *)

Definition sync_remote_repo (w : world) (i : nat) (plist repourl : string) : Z :=
  if (access w i plist =? 0)%Z then 0%Z
  else if (xbps_repository_sync_pkg_index w i repourl =? -1)%Z then (-1)%Z
  else 0%Z.

(** ** check_repo_arch *)

(** [strrchr(s, c)] for a character [c] other than NUL: the suffix of [s]
    that starts at the last occurrence of [c]. *)
Fixpoint strrchr (s : string) (c : ascii) : option string :=
  match s with
  | EmptyString => None
  | String a s' =>
      match strrchr s' c with
      | Some p => Some p
      | None => if Ascii.eqb a c then Some s else None
      end
  end.

Definition check_repo_arch (machine uri : string) : bool :=
  match strrchr uri "/"%char with
  | None => false
  | Some p =>
      let p := match p with String _ t => t | EmptyString => EmptyString end in
      if String.eqb p "" then false
      else if String.eqb p "noarch" then true
      else if String.eqb p machine then true
      else false
  end.

(** ** xbps_repository_pool_release *)

(** The [while] loop: take the first node, unlink it, free it. *)
Fixpoint release_loop (q : list repository_pool) : list repository_pool :=
  match q with
  | [] => []
  | _ :: q' => release_loop q'
  end.

Definition xbps_repository_pool_release (st : state) : state :=
  if negb (repolist_initialized st) then st
  else {| xhp := xhp st;
          rpool_queue := release_loop (rpool_queue st);
          repolist_initialized := false |}.

(** ** xbps_repository_pool_init *)

(** How one pass through the body of the [while] loop ends: at the next
    iteration (with the queue and the two counters), or at the [out] label
    with [rv] set. *)
Inductive ctrl :=
| Continue (q : list repository_pool) (ntotal nmissing : Z)
| GotoOut (rv : Z) (q : list repository_pool).

(** The SIMPLEQ_FOREACH scan for an entry with the same URI. *)
Definition duprepo (q : list repository_pool) (repouri : string) : bool :=
  existsb (fun rpool => String.eqb (rpi_uri (rpi rpool)) repouri) q.

(** The body of the [while] loop for the [i]-th object of the array. *)
Definition init_body (w : world) (i : nat) (repouri : string)
    (q : list repository_pool) (ntotal nmissing : Z) : ctrl :=
  if duprepo q repouri then Continue q ntotal nmissing
  else
    let ntotal := size_wrap (ntotal + 1) in
    if negb (check_repo_arch (un_machine w) repouri) then
      Continue q ntotal (size_wrap (nmissing + 1))
    else
      match xbps_pkg_index_plist w i repouri with
      | inr e => GotoOut e q
      | inl plist =>
          if (sync_remote_repo w i plist repouri =? -1)%Z then
            Continue q ntotal (size_wrap (nmissing + 1))
          else
            match malloc_rpool w i with
            | inr e => GotoOut e q
            | inl p =>
                match malloc_rpi w i with
                | inr e => GotoOut e q
                | inl _ =>
                    match prop_string_cstring w i repouri with
                    | inr e => GotoOut e q
                    | inl uri =>
                        match prop_dictionary_internalize_from_zfile w i plist with
                        | inr e =>
                            if (e =? ENOENT)%Z then
                              Continue q ntotal (size_wrap (nmissing + 1))
                            else GotoOut e q
                        | inl repod =>
                            Continue
                              (SIMPLEQ_INSERT_TAIL q
                                 {| rp_addr := p;
                                    rpi := {| rpi_uri := uri; rpi_repod := repod |} |})
                              ntotal nmissing
                        end
                    end
                end
            end
      end.

(** The [while] loop over the objects the iterator still has to yield;
    [i] is the index of the first of them. *)
Fixpoint init_loop (w : world) (i : nat) (objs : list string)
    (q : list repository_pool) (ntotal nmissing : Z) : ctrl :=
  match objs with
  | [] => Continue q ntotal nmissing
  | repouri :: objs' =>
      match init_body w i repouri q ntotal nmissing with
      | Continue q' ntotal' nmissing' => init_loop w (S i) objs' q' ntotal' nmissing'
      | GotoOut rv q' => GotoOut rv q'
      end
  end.

Definition set_queue (st : state) (q : list repository_pool) : state :=
  {| xhp := xhp st; rpool_queue := q;
     repolist_initialized := repolist_initialized st |}.

(** The code at the [out] label. *)
Definition init_out (rv : Z) (st : state) : Z * state :=
  if negb (rv =? 0)%Z then (rv, xbps_repository_pool_release st) else (rv, st).

(** [None]: the behaviour is undefined, because the handle points to an
    array that was already destroyed. *)
Definition xbps_repository_pool_init (w : world) (st : state) : option (Z * state) :=
  match repos_array (xhp st) with
  | None => Some (ENOTSUP, st)
  | Some arr =>
      if repolist_initialized st then Some (0%Z, st)
      else if Nat.eqb (pa_refcnt arr) 0 then None
      else if Nat.eqb (List.length (pa_items arr)) 0 then Some (ENOTSUP, st)
      else
        match prop_array_iterator_errno w with
        | Some e => Some (init_out e st)
        | None =>
            match init_loop w 0 (pa_items arr) (rpool_queue st) 0 0 with
            | GotoOut rv q => Some (init_out rv (set_queue st q))
            | Continue q ntotal nmissing =>
                if (size_wrap (ntotal - nmissing) =? 0)%Z then
                  Some (init_out ENOTSUP (set_queue st q))
                else
                  Some (0%Z,
                        {| xhp := {| repos_array := Some (prop_object_release arr) |};
                           rpool_queue := q;
                           repolist_initialized := true |})
            end
        end
  end.

(** ** xbps_repository_pool_foreach *)

(** What a run of the traversal yields.  [Undefined]: a pointer that no
    longer refers to a live object was dereferenced.  [OutOfFuel]: the
    bound on the number of iterations was reached first. *)
Inductive run (R : Type) :=
| Returns (r : R)
| Undefined
| OutOfFuel.
Arguments Returns {R} r.
Arguments Undefined {R}.
Arguments OutOfFuel {R}.

(** One invocation of the callback: the index it was given, the status it
    returned and the value it left in [done]. *)
Record visit := {
  v_rpi : repository_pool_index;
  v_rv : Z;
  v_done : bool
}.

(** The callback [fn(rpi, arg, &done)].  It runs with [done] false, may
    change what [arg] points to (a value of type [A]) and the shared state,
    and yields its status and the final value of [done]. *)
Definition callback (A : Type) : Type :=
  repository_pool_index -> A -> state -> Z * bool * A * state.

(** What the traversal hands back: the status, the final [arg] and state,
    and the invocations of the callback in the order they were made. *)
Record foreach_result (A : Type) := {
  fr_rv : Z;
  fr_arg : A;
  fr_state : state;
  fr_visits : list visit
}.
Arguments fr_rv {A} f.
Arguments fr_arg {A} f.
Arguments fr_state {A} f.
Arguments fr_visits {A} f.

Definition add_visit {A} (v : visit) (r : run (foreach_result A)) : run (foreach_result A) :=
  match r with
  | Returns f =>
      Returns {| fr_rv := fr_rv f; fr_arg := fr_arg f; fr_state := fr_state f;
                 fr_visits := v :: fr_visits f |}
  | Undefined => Undefined
  | OutOfFuel => OutOfFuel
  end.

(** Modelled from the spec: the SIMPLEQ_FOREACH_SAFE macro of queue.h,
    which is not among the sources, with the loop body of
    [xbps_repository_pool_foreach] inlined.  The traversal fetches the
    reference to the next entry ([rpool_new]) before it invokes the callback
    on the current one ([var]), and stops when the callback returns a
    non-zero status or sets the stop signal.  [rv] is the status so far. *)
Fixpoint foreach_loop {A} (fuel : nat) (fn : callback A) (var : option addr)
    (rv : Z) (arg : A) (st : state) : run (foreach_result A) :=
  match var with
  | None => Returns {| fr_rv := rv; fr_arg := arg; fr_state := st; fr_visits := [] |}
  | Some p =>
      match fuel with
      | O => OutOfFuel
      | S fuel' =>
          match sqe_lookup (rpool_queue st) p with
          | None => Undefined
          | Some (rpool, rpool_new) =>
              let '(rv', done, arg', st') := fn (rpi rpool) arg st in
              let v := {| v_rpi := rpi rpool; v_rv := rv'; v_done := done |} in
              if negb (rv' =? 0)%Z || done then
                Returns {| fr_rv := rv'; fr_arg := arg'; fr_state := st';
                           fr_visits := [v] |}
              else add_visit v (foreach_loop fuel' fn rpool_new rv' arg' st')
          end
      end
  end.

(** For comparison with [foreach_loop]: the same loop written with the
    plain SIMPLEQ_FOREACH, which reads the link of the current node once
    the callback has returned. *)
Fixpoint foreach_loop_nofetch {A} (fuel : nat) (fn : callback A) (var : option addr)
    (rv : Z) (arg : A) (st : state) : run (foreach_result A) :=
  match var with
  | None => Returns {| fr_rv := rv; fr_arg := arg; fr_state := st; fr_visits := [] |}
  | Some p =>
      match fuel with
      | O => OutOfFuel
      | S fuel' =>
          match sqe_lookup (rpool_queue st) p with
          | None => Undefined
          | Some (rpool, _) =>
              let '(rv', done, arg', st') := fn (rpi rpool) arg st in
              let v := {| v_rpi := rpi rpool; v_rv := rv'; v_done := done |} in
              if negb (rv' =? 0)%Z || done then
                Returns {| fr_rv := rv'; fr_arg := arg'; fr_state := st';
                           fr_visits := [v] |}
              else
                match sqe_lookup (rpool_queue st') p with
                | None => Undefined
                | Some (_, next) =>
                    add_visit v (foreach_loop_nofetch fuel' fn next rv' arg' st')
                end
          end
      end
  end.

Definition xbps_repository_pool_foreach {A} (w : world) (fuel : nat)
    (fn : callback A) (arg : A) (st : state) : run (foreach_result A) :=
  match xbps_repository_pool_init w st with
  | None => Undefined
  | Some (rv, st1) =>
      if negb (rv =? 0)%Z then
        Returns {| fr_rv := rv; fr_arg := arg; fr_state := st1; fr_visits := [] |}
      else foreach_loop fuel fn (SIMPLEQ_FIRST (rpool_queue st1)) rv arg st1
  end.

(** ** Building states, arrays and nodes *)

Definition mk_state (arr : option prop_array) (q : list repository_pool) (b : bool) : state :=
  {| xhp := {| repos_array := arr |}; rpool_queue := q; repolist_initialized := b |}.

Definition mk_array (n : nat) (items : list string) : prop_array :=
  {| pa_refcnt := n; pa_items := items |}.

Definition mk_rpool (p : addr) (uri : string) (d : prop_dictionary) : repository_pool :=
  {| rp_addr := p; rpi := {| rpi_uri := uri; rpi_repod := d |} |}.

(** ** Vocabulary of the properties *)

(** The state once code outside the pool has stored [a] in the
    [repos_array] field of the handle. *)
Definition with_repos_array (st : state) (a : option prop_array) : state :=
  {| xhp := {| repos_array := a |};
     rpool_queue := rpool_queue st;
     repolist_initialized := repolist_initialized st |}.

(** The URIs, and the addresses, of the nodes of a queue, in queue order. *)
Definition uris (q : list repository_pool) : list string :=
  map (fun rpool => rpi_uri (rpi rpool)) q.

Definition addrs (q : list repository_pool) : list addr := map rp_addr q.

(** [subseq l1 l2]: [l1] is [l2] with some elements left out, the others
    in the order they have in [l2]. *)
Inductive subseq {A : Type} : list A -> list A -> Prop :=
| subseq_nil l : subseq [] l
| subseq_skip x l1 l2 : subseq l1 l2 -> subseq l1 (x :: l2)
| subseq_take x l1 l2 : subseq l1 l2 -> subseq (x :: l1) (x :: l2).

#[local] Hint Constructors subseq : core.

(** The flag is clear exactly when the queue is empty. *)
Definition pool_invariant (st : state) : Prop :=
  repolist_initialized st = false <-> rpool_queue st = [].

(** The collaborator the value [e] of [rv] was read from, when the body
    for the [i]-th object jumps to [out]. *)
Definition fatal_source (w : world) (i : nat) (e : Z) : Prop :=
  (exists uri, xbps_pkg_index_plist w i uri = inr e) \/
  malloc_rpool w i = inr e \/
  malloc_rpi w i = inr e \/
  prop_string_cstring_errno w i = Some e \/
  (exists plist, prop_dictionary_internalize_from_zfile w i plist = inr e /\ e <> ENOENT).

(** The four ways the body can end. *)
Inductive body_spec (w : world) (i : nat) (repouri : string)
    (q : list repository_pool) (ntotal nmissing : Z) : ctrl -> Prop :=
| body_dup :
    duprepo q repouri = true ->
    body_spec w i repouri q ntotal nmissing (Continue q ntotal nmissing)
| body_missing :
    duprepo q repouri = false ->
    body_spec w i repouri q ntotal nmissing
      (Continue q (size_wrap (ntotal + 1)) (size_wrap (nmissing + 1)))
| body_added p d :
    duprepo q repouri = false ->
    malloc_rpool w i = inl p ->
    body_spec w i repouri q ntotal nmissing
      (Continue (q ++ [mk_rpool p repouri d]) (size_wrap (ntotal + 1)) nmissing)
| body_fatal e :
    duprepo q repouri = false ->
    fatal_source w i e ->
    body_spec w i repouri q ntotal nmissing (GotoOut e q).

(** What the loop has done when it is over: [new] are the entries it
    appended, [kt] and [km] the number of times it incremented [ntotal] and
    [nmissing]. *)
Definition loop_post (objs : list string) (q : list repository_pool)
    (ntotal nmissing : Z) (c : ctrl) : Prop :=
  match c with
  | Continue q' ntotal' nmissing' =>
      exists new kt km,
        q' = q ++ new /\
        subseq (uris new) objs /\
        (NoDup (uris q) -> NoDup (uris q')) /\
        size_wrap ntotal' = size_wrap (ntotal + Z.of_nat kt) /\
        size_wrap nmissing' = size_wrap (nmissing + Z.of_nat km) /\
        kt = km + List.length new /\
        kt <= List.length objs
  | GotoOut rv q' =>
      exists new,
        q' = q ++ new /\
        subseq (uris new) objs /\
        (NoDup (uris q) -> NoDup (uris q'))
  end.

(** The failures of one location as the design names them.  The first
    three are the recoverable ones; the others carry the [errno] value of
    the collaborator that failed. *)
Inductive failure :=
| ArchMismatch
| FetchFailure
| IndexNotFound
| PathResolution (e : Z)
| Allocation (e : Z)
| Deserialization (e : Z).

(** The error code a failure aborts the build with; [None] for a failure
    that only skips the location. *)
Definition fatal_code (f : failure) : option Z :=
  match f with
  | ArchMismatch | FetchFailure | IndexNotFound => None
  | PathResolution e | Allocation e | Deserialization e => Some e
  end.

(** The [i]-th location gets as far as internalizing the index stored at
    [plist]: the architecture matches, the path resolves, the index file is
    there or was fetched, the two structures are allocated and the URI is
    copied. *)
Definition reaches_internalize (w : world) (i : nat) (uri plist : string) : Prop :=
  check_repo_arch (un_machine w) uri = true /\
  xbps_pkg_index_plist w i uri = inl plist /\
  sync_remote_repo w i plist uri <> (-1)%Z /\
  (exists p, malloc_rpool w i = inl p) /\
  (exists p', malloc_rpi w i = inl p') /\
  prop_string_cstring_errno w i = None.

(** Failure [f] is what happens to the [i]-th location [uri] in world [w]. *)
Definition occurs (w : world) (i : nat) (uri : string) (f : failure) : Prop :=
  match f with
  | ArchMismatch => check_repo_arch (un_machine w) uri = false
  | PathResolution e =>
      check_repo_arch (un_machine w) uri = true /\
      xbps_pkg_index_plist w i uri = inr e
  | FetchFailure =>
      check_repo_arch (un_machine w) uri = true /\
      exists plist,
        xbps_pkg_index_plist w i uri = inl plist /\
        sync_remote_repo w i plist uri = (-1)%Z
  | Allocation e =>
      check_repo_arch (un_machine w) uri = true /\
      exists plist,
        xbps_pkg_index_plist w i uri = inl plist /\
        sync_remote_repo w i plist uri <> (-1)%Z /\
        (malloc_rpool w i = inr e \/
         (exists p, malloc_rpool w i = inl p) /\
         (malloc_rpi w i = inr e \/
          (exists p', malloc_rpi w i = inl p') /\
          prop_string_cstring_errno w i = Some e))
  | IndexNotFound =>
      exists plist,
        reaches_internalize w i uri plist /\
        prop_dictionary_internalize_from_zfile w i plist = inr ENOENT
  | Deserialization e =>
      exists plist,
        reaches_internalize w i uri plist /\
        prop_dictionary_internalize_from_zfile w i plist = inr e /\
        e <> ENOENT
  end.

(** The [i]-th location [uri] is eligible and built without failure, its
    node being allocated at [p] and its dictionary being [d]. *)
Definition registers (w : world) (i : nat) (uri : string) (p : addr)
    (d : prop_dictionary) : Prop :=
  exists plist,
    reaches_internalize w i uri plist /\
    malloc_rpool w i = inl p /\
    prop_dictionary_internalize_from_zfile w i plist = inl d.

(** A visit after which the traversal goes on. *)
Definition continues (v : visit) : Prop := v_rv v = 0%Z /\ v_done v = false.

(** A visit after which the traversal stops. *)
Definition stops (v : visit) : Prop := v_rv v <> 0%Z \/ v_done v = true.

(** The traversal the design describes, over the entries [rest] that are
    still to be visited: each entry is visited in turn, the traversal stops
    with the first visit whose status is not zero or that sets the stop
    signal, and the status handed back is that of the last visit ([rv], the
    status so far, when no entry is left). *)
Inductive walked : list repository_pool -> Z -> list visit -> Z -> Prop :=
| walked_end rv : walked [] rv [] rv
| walked_stop n rest rv v :
    v_rpi v = rpi n -> stops v -> walked (n :: rest) rv [v] (v_rv v)
| walked_next n rest rv v vs rv' :
    v_rpi v = rpi n -> continues v -> walked rest (v_rv v) vs rv' ->
    walked (n :: rest) rv (v :: vs) rv'.

(** ** Sample worlds, states and callbacks *)

(** A host of architecture x86_64 on which every collaborator succeeds:
    the index of the [i]-th repository is cached locally, its node is
    allocated at address [100 + i] and its dictionary is number [i]. *)
Definition good_world : world :=
  {| un_machine := "x86_64";
     prop_array_iterator_errno := None;
     xbps_pkg_index_plist := fun _ uri => inl (String.append uri "/pkg-index.plist");
     access := fun _ _ => 0%Z;
     xbps_repository_sync_pkg_index := fun _ _ => 0%Z;
     malloc_rpool := fun i => inl (100 + i);
     malloc_rpi := fun i => inl (200 + i);
     prop_string_cstring_errno := fun _ => None;
     prop_dictionary_internalize_from_zfile := fun i _ => inl i |}.

(** [good_world], except that internalizing the index of the [k]-th
    repository fails with [errno] set to [e]. *)
Definition bad_index_world (k : nat) (e : Z) : world :=
  {| un_machine := "x86_64";
     prop_array_iterator_errno := None;
     xbps_pkg_index_plist := fun _ uri => inl (String.append uri "/pkg-index.plist");
     access := fun _ _ => 0%Z;
     xbps_repository_sync_pkg_index := fun _ _ => 0%Z;
     malloc_rpool := fun i => inl (100 + i);
     malloc_rpi := fun i => inl (200 + i);
     prop_string_cstring_errno := fun _ => None;
     prop_dictionary_internalize_from_zfile :=
       fun i _ => if Nat.eqb i k then inr e else inl i |}.

(** [good_world], except that resolving the path of the index file fails
    with [errno] set to [e]. *)
Definition bad_path_world (e : Z) : world :=
  {| un_machine := "x86_64";
     prop_array_iterator_errno := None;
     xbps_pkg_index_plist := fun _ _ => inr e;
     access := fun _ _ => 0%Z;
     xbps_repository_sync_pkg_index := fun _ _ => 0%Z;
     malloc_rpool := fun i => inl (100 + i);
     malloc_rpi := fun i => inl (200 + i);
     prop_string_cstring_errno := fun _ => None;
     prop_dictionary_internalize_from_zfile := fun i _ => inl i |}.

(** An initialized pool with three registered repositories. *)
Definition three_repos : state :=
  mk_state (Some (mk_array 0 ["/a/noarch"; "/b/noarch"; "/c/noarch"]))
    [mk_rpool 100 "/a/noarch" 0; mk_rpool 101 "/b/noarch" 1; mk_rpool 102 "/c/noarch" 2]
    true.

(** A callback that counts its invocations in [arg] and, on the second
    one, sets the stop signal and returns 7. *)
Definition stop_at_second : callback nat :=
  fun _ n s => if Nat.eqb n 1 then (7%Z, true, S n, s) else (0%Z, false, S n, s).


(** A consumer that unregisters the repository it is handed: it unlinks
    the entry of the queue that carries the URI of the index. *)
Fixpoint unlink_uri (q : list repository_pool) (uri : string) : list repository_pool :=
  match q with
  | [] => []
  | elm :: q' =>
      if String.eqb (rpi_uri (rpi elm)) uri then q' else elm :: unlink_uri q' uri
  end.

Definition unregister_current : callback unit :=
  fun r a s => (0%Z, false, a, set_queue s (unlink_uri (rpool_queue s) (rpi_uri r))).

(** ** Vocabulary of the further properties *)

(** [s] holds no '/'. *)
Fixpoint slash_free (s : string) : bool :=
  match s with
  | EmptyString => true
  | String a s' => negb (Ascii.eqb a "/"%char) && slash_free s'
  end.

(** [w], with [f] answering in place of [xbps_repository_sync_pkg_index]. *)
Definition with_sync (w : world) (f : nat -> string -> Z) : world :=
  {| un_machine := un_machine w;
     prop_array_iterator_errno := prop_array_iterator_errno w;
     xbps_pkg_index_plist := xbps_pkg_index_plist w;
     access := access w;
     xbps_repository_sync_pkg_index := f;
     malloc_rpool := malloc_rpool w;
     malloc_rpi := malloc_rpi w;
     prop_string_cstring_errno := prop_string_cstring_errno w;
     prop_dictionary_internalize_from_zfile := prop_dictionary_internalize_from_zfile w |}.

(** The node [n] was built for one of the objects [objs], the first of
    which has index [i0] in the array: its URI is that object, and for that
    object every stage of the loop body succeeded, the node being allocated
    at the address of [n] and the dictionary of [n] being the one that was
    internalized. *)
Definition built_at (w : world) (objs : list string) (i0 : nat)
    (n : repository_pool) : Prop :=
  exists k,
    nth_error objs k = Some (rpi_uri (rpi n)) /\
    registers w (i0 + k) (rpi_uri (rpi n)) (rp_addr n) (rpi_repod (rpi n)).

(** [malloc] never hands out the address of a node of [q], nor the same
    address for two nodes of one build. *)
Definition fresh_malloc (w : world) (q : list repository_pool) : Prop :=
  (forall i p, malloc_rpool w i = inl p -> ~ In p (addrs q)) /\
  (forall i j p, malloc_rpool w i = inl p -> malloc_rpool w j = inl p -> i = j).

(** The queue a pass through the body, or the whole loop, leaves. *)
Definition ctrl_queue (c : ctrl) : list repository_pool :=
  match c with
  | Continue q _ _ => q
  | GotoOut _ q => q
  end.

(** * Properties *)

(** ** Arithmetic of the counters *)

Lemma size_wrap_idem (z : Z) : size_wrap (size_wrap z) = size_wrap z.
Proof. unfold size_wrap. apply Z.mod_mod. discriminate. Qed.

Lemma size_wrap_succ (c z : Z) (k : nat) :
  size_wrap c = size_wrap (size_wrap (z + 1) + Z.of_nat k) ->
  size_wrap c = size_wrap (z + Z.of_nat (S k)).
Proof.
  intros ->. unfold size_wrap.
  rewrite Z.add_mod_idemp_l by discriminate.
  f_equal. lia.
Qed.

Lemma size_wrap_small (z : Z) : (0 <= z < size_modulus)%Z -> size_wrap z = z.
Proof. intros H. unfold size_wrap. now apply Z.mod_small. Qed.

Lemma size_wrap_sub (a b a' b' : Z) :
  size_wrap a = size_wrap a' -> size_wrap b = size_wrap b' ->
  size_wrap (a - b) = size_wrap (a' - b').
Proof.
  unfold size_wrap. intros Ha Hb.
  rewrite (Zminus_mod a b), (Zminus_mod a' b'). now rewrite Ha, Hb.
Qed.

(** ** The URIs of a queue *)

Lemma uris_app (q1 q2 : list repository_pool) : uris (q1 ++ q2) = uris q1 ++ uris q2.
Proof. apply map_app. Qed.

Lemma duprepo_false_not_in (q : list repository_pool) (uri : string) :
  duprepo q uri = false -> ~ In uri (uris q).
Proof.
  induction q as [|n q IH]; simpl; intros H; [tauto|].
  apply orb_false_iff in H. destruct H as [Hn Hq].
  intros [Heq | Hin].
  - rewrite Heq, String.eqb_refl in Hn. discriminate.
  - now apply IH.
Qed.

Lemma NoDup_uris_snoc (q : list repository_pool) (n : repository_pool) :
  NoDup (uris q) -> ~ In (rpi_uri (rpi n)) (uris q) -> NoDup (uris (q ++ [n])).
Proof.
  intros Hq Hn. rewrite uris_app. simpl.
  apply NoDup_app; [assumption | repeat constructor; auto | ].
  intros a Ha [<- | []]. contradiction.
Qed.

(** ** One pass through the loop body *)

Lemma init_body_spec (w : world) (i : nat) (repouri : string)
    (q : list repository_pool) (ntotal nmissing : Z) :
  body_spec w i repouri q ntotal nmissing (init_body w i repouri q ntotal nmissing).
Proof.
  unfold init_body, prop_string_cstring, SIMPLEQ_INSERT_TAIL.
  destruct (duprepo q repouri) eqn:Hdup; [now apply body_dup|].
  destruct (negb (check_repo_arch (un_machine w) repouri)); [now apply body_missing|].
  destruct (xbps_pkg_index_plist w i repouri) as [plist|e] eqn:Hplist;
    [|apply body_fatal; [assumption | left; eauto]].
  destruct (sync_remote_repo w i plist repouri =? -1)%Z; [now apply body_missing|].
  destruct (malloc_rpool w i) as [p|e] eqn:Hp;
    [|apply body_fatal; [assumption | right; left; assumption]].
  destruct (malloc_rpi w i) as [p'|e] eqn:Hp';
    [|apply body_fatal; [assumption | right; right; left; assumption]].
  destruct (prop_string_cstring_errno w i) as [e|] eqn:Hcs;
    [apply body_fatal; [assumption | right; right; right; left; assumption]|].
  destruct (prop_dictionary_internalize_from_zfile w i plist) as [d|e] eqn:Hd.
  - now apply body_added.
  - destruct (e =? ENOENT)%Z eqn:He; [now apply body_missing|].
    apply body_fatal; [assumption|].
    right; right; right; right. exists plist. split; [assumption|].
    now apply Z.eqb_neq.
Qed.

(** ** The loop *)

Lemma init_loop_app (w : world) (pre objs : list string) :
  forall i q ntotal nmissing,
    init_loop w i (pre ++ objs) q ntotal nmissing =
    match init_loop w i pre q ntotal nmissing with
    | Continue q' ntotal' nmissing' =>
        init_loop w (i + List.length pre) objs q' ntotal' nmissing'
    | GotoOut rv q' => GotoOut rv q'
    end.
Proof.
  induction pre as [|uri pre IH]; intros i q ntotal nmissing; simpl.
  - now rewrite Nat.add_0_r.
  - destruct (init_body w i uri q ntotal nmissing) as [q' nt' nm'|rv q']; [|reflexivity].
    rewrite IH. now rewrite Nat.add_succ_r.
Qed.

Lemma init_loop_post (w : world) (objs : list string) :
  forall i q ntotal nmissing,
    loop_post objs q ntotal nmissing (init_loop w i objs q ntotal nmissing).
Proof.
  induction objs as [|uri objs IH]; intros i q ntotal nmissing; cbn [init_loop].
  - exists [], 0, 0. rewrite app_nil_r, !Z.add_0_r. repeat split; auto.
  - destruct (init_body_spec w i uri q ntotal nmissing) as [Hdup|Hdup|p d Hdup Hp|e Hdup He].
    + (* duplicate: skipped, not counted *)
      specialize (IH (S i) q ntotal nmissing).
      destruct (init_loop w (S i) objs q ntotal nmissing) as [q' nt' nm'|rv q'];
        cbn [loop_post] in *.
      * destruct IH as (new & kt & km & Hq & Hsub & Hnd & Hnt & Hnm & Hk & Hle).
        exists new, kt, km. cbn [List.length]. repeat split; auto.
      * destruct IH as (new & Hq & Hsub & Hnd). exists new. repeat split; auto.
    + (* counted and missing *)
      specialize (IH (S i) q (size_wrap (ntotal + 1)) (size_wrap (nmissing + 1))).
      destruct (init_loop w (S i) objs q _ _) as [q' nt' nm'|rv q'];
        cbn [loop_post] in *.
      * destruct IH as (new & kt & km & Hq & Hsub & Hnd & Hnt & Hnm & Hk & Hle).
        exists new, (S kt), (S km). cbn [List.length].
        repeat split; auto using size_wrap_succ; lia.
      * destruct IH as (new & Hq & Hsub & Hnd). exists new. repeat split; auto.
    + (* counted and registered *)
      specialize (IH (S i) (q ++ [mk_rpool p uri d]) (size_wrap (ntotal + 1)) nmissing).
      assert (Hnd1 : NoDup (uris q) -> NoDup (uris (q ++ [mk_rpool p uri d]))).
      { intros H. apply NoDup_uris_snoc; [assumption|].
        simpl. now apply duprepo_false_not_in. }
      destruct (init_loop w (S i) objs _ _ _) as [q' nt' nm'|rv q'];
        cbn [loop_post] in *.
      * destruct IH as (new & kt & km & Hq & Hsub & Hnd & Hnt & Hnm & Hk & Hle).
        exists (mk_rpool p uri d :: new), (S kt), km. cbn [List.length].
        repeat split; auto using size_wrap_succ; try lia.
        -- rewrite Hq, <- app_assoc. reflexivity.
        -- simpl. now constructor.
      * destruct IH as (new & Hq & Hsub & Hnd).
        exists (mk_rpool p uri d :: new). repeat split; auto.
        -- rewrite Hq, <- app_assoc. reflexivity.
        -- simpl. now constructor.
    + (* fatal *)
      exists []. rewrite app_nil_r. repeat split; auto.
Qed.

(** ** Release, and the code at the [out] label *)

Lemma release_loop_nil (q : list repository_pool) : release_loop q = [].
Proof. induction q; simpl; auto. Qed.

(** [xbps_repository_pool_release] keeps the invariant, and is the
    identity on a pool that is not initialized. *)
Lemma release_invariant (st : state) :
  pool_invariant st -> pool_invariant (xbps_repository_pool_release st).
Proof.
  unfold xbps_repository_pool_release, pool_invariant.
  destruct (repolist_initialized st) eqn:Hflag; simpl; [|now rewrite Hflag].
  rewrite release_loop_nil. intros _. split; reflexivity.
Qed.

Lemma release_not_initialized (st : state) :
  repolist_initialized st = false -> xbps_repository_pool_release st = st.
Proof. unfold xbps_repository_pool_release. now intros ->. Qed.

(** At the [out] label of [xbps_repository_pool_init] the flag is still
    clear, so the call of [xbps_repository_pool_release] returns at once. *)
Lemma init_out_not_initialized (rv : Z) (st : state) :
  repolist_initialized st = false -> init_out rv st = (rv, st).
Proof.
  intros H. unfold init_out.
  destruct (negb (rv =? 0)%Z); [|reflexivity].
  now rewrite release_not_initialized.
Qed.

(** A build that runs the loop, in terms of the loop's result. *)
Lemma init_runs_loop (w : world) (st : state) (arr : prop_array) :
  repos_array (xhp st) = Some arr ->
  repolist_initialized st = false ->
  pa_refcnt arr <> 0 ->
  pa_items arr <> [] ->
  prop_array_iterator_errno w = None ->
  xbps_repository_pool_init w st =
  match init_loop w 0 (pa_items arr) (rpool_queue st) 0 0 with
  | GotoOut rv q => Some (rv, set_queue st q)
  | Continue q ntotal nmissing =>
      if (size_wrap (ntotal - nmissing) =? 0)%Z then Some (ENOTSUP, set_queue st q)
      else Some (0%Z, {| xhp := {| repos_array := Some (prop_object_release arr) |};
                         rpool_queue := q;
                         repolist_initialized := true |})
  end.
Proof.
  intros Harr Hflag Href Hitems Hiter.
  unfold xbps_repository_pool_init. rewrite Harr, Hflag, Hiter.
  apply Nat.eqb_neq in Href. rewrite Href.
  destruct (pa_items arr) as [|uri objs] eqn:Eitems; [contradiction|].
  cbn [List.length Nat.eqb].
  destruct (init_loop w 0 (uri :: objs) (rpool_queue st) 0 0) as [q nt nm|rv q].
  - destruct (size_wrap (nt - nm) =? 0)%Z; [|reflexivity].
    now rewrite init_out_not_initialized.
  - now rewrite init_out_not_initialized.
Qed.

(** With fewer than [size_modulus] objects in the array, the difference
    the build tests after the loop is the number of entries it appended. *)
Lemma init_loop_difference (w : world) (objs : list string)
    (q q' : list repository_pool) (ntotal nmissing : Z) :
  (Z.of_nat (List.length objs) < size_modulus)%Z ->
  init_loop w 0 objs q 0 0 = Continue q' ntotal nmissing ->
  exists new,
    q' = q ++ new /\
    size_wrap (ntotal - nmissing) = Z.of_nat (List.length new).
Proof.
  intros Hlen Hloop.
  pose proof (init_loop_post w objs 0 q 0 0) as Hpost.
  rewrite Hloop in Hpost. cbn [loop_post] in Hpost.
  destruct Hpost as (new & kt & km & Hq & _ & _ & Hnt & Hnm & Hk & Hle).
  exists new. split; [assumption|].
  rewrite (size_wrap_sub _ _ _ _ Hnt Hnm).
  replace (0 + Z.of_nat kt - (0 + Z.of_nat km))%Z with (Z.of_nat (List.length new)) by lia.
  apply size_wrap_small. lia.
Qed.

(** A build that succeeds from a pool that satisfies the invariant
    leaves a pool that satisfies it. *)
Lemma init_success_invariant (w : world) (st st' : state) (arr : prop_array) :
  repos_array (xhp st) = Some arr ->
  (Z.of_nat (List.length (pa_items arr)) < size_modulus)%Z ->
  pool_invariant st ->
  xbps_repository_pool_init w st = Some (0%Z, st') ->
  repolist_initialized st' = true ->
  pool_invariant st'.
Proof.
  intros Harr Hlen Hinv Hinit Hflag'.
  unfold pool_invariant. rewrite Hflag'.
  split; [discriminate|]. intros Hq'. exfalso.
  unfold xbps_repository_pool_init in Hinit. rewrite Harr in Hinit.
  destruct (repolist_initialized st) eqn:Hflag.
  - injection Hinit as <-. apply Hinv in Hq'. congruence.
  - destruct (Nat.eqb (pa_refcnt arr) 0); [discriminate|].
    destruct (Nat.eqb (List.length (pa_items arr)) 0).
    { injection Hinit as _ <-. congruence. }
    destruct (prop_array_iterator_errno w) as [e|].
    { rewrite init_out_not_initialized in Hinit by assumption.
      injection Hinit as _ <-. congruence. }
    destruct (init_loop w 0 (pa_items arr) (rpool_queue st) 0 0) as [q nt nm|rv q] eqn:Hloop.
    + destruct (init_loop_difference _ _ _ _ _ _ Hlen Hloop) as (new & Hq & Hdiff).
      destruct (size_wrap (nt - nm) =? 0)%Z eqn:Hz.
      * rewrite init_out_not_initialized in Hinit by assumption.
        injection Hinit as _ <-. simpl in Hflag'. congruence.
      * injection Hinit as Hst. rewrite <- Hst in Hq'. cbn [rpool_queue] in Hq'.
        apply Z.eqb_neq in Hz. apply Hz. rewrite Hdiff.
        rewrite Hq in Hq'. apply app_eq_nil in Hq'. destruct Hq' as [_ ->]. reflexivity.
    + rewrite init_out_not_initialized in Hinit by assumption.
      injection Hinit as _ <-. simpl in Hflag'. congruence.
Qed.

(** ** Fatal abort (claim C1) *)

(** C1.  The design asks that a build aborted by a fatal error leave the
    registry empty.  The code does not: with four matching locations, the
    index of the third failing to internalize with EIO, the build returns
    EIO while the two entries registered before the failure are still in
    the queue and the flag is clear.  The cleanup at [out] calls
    [xbps_repository_pool_release], which returns at once because the flag
    is not set yet. *)
Theorem C1_fatal_abort_keeps_entries :
  xbps_repository_pool_init (bad_index_world 2 EIO)
    (mk_state (Some (mk_array 1 ["/a/noarch"; "/b/noarch"; "/c/noarch"; "/d/noarch"]))
       [] false) =
  Some (EIO,
        mk_state (Some (mk_array 1 ["/a/noarch"; "/b/noarch"; "/c/noarch"; "/d/noarch"]))
          [mk_rpool 100 "/a/noarch" 0; mk_rpool 101 "/b/noarch" 1] false).
Proof. vm_compute. reflexivity. Qed.

(** ** The invariant across a failed build (claim C2) *)

(** C2.  The design states that every operation keeps the flag clear
    exactly when the registry is empty.  A failed build breaks it: from the
    empty, uninitialized pool, with the second of two matching locations
    failing to internalize with EIO, [xbps_repository_pool_init] ends with
    the flag clear and one entry registered. *)
Theorem C2_failed_build_breaks_invariant :
  let st := mk_state (Some (mk_array 1 ["/a/noarch"; "/b/noarch"])) [] false in
  pool_invariant st /\
  exists st',
    xbps_repository_pool_init (bad_index_world 1 EIO) st = Some (EIO, st') /\
    repolist_initialized st' = false /\
    rpool_queue st' = [mk_rpool 100 "/a/noarch" 0] /\
    ~ pool_invariant st'.
Proof.
  cbv zeta. split; [unfold pool_invariant; simpl; tauto|].
  eexists. split; [vm_compute; reflexivity|].
  split; [reflexivity|]. split; [reflexivity|].
  unfold pool_invariant. simpl. intros [H _]. specialize (H eq_refl). discriminate.
Qed.

(** ** Per-location failures and fatal failures (claim C3) *)

Lemma init_body_occurs (w : world) (i : nat) (uri : string)
    (q : list repository_pool) (ntotal nmissing : Z) (f : failure) :
  duprepo q uri = false ->
  occurs w i uri f ->
  init_body w i uri q ntotal nmissing =
  match fatal_code f with
  | None => Continue q (size_wrap (ntotal + 1)) (size_wrap (nmissing + 1))
  | Some e => GotoOut e q
  end.
Proof.
  intros Hdup Hocc. unfold init_body, prop_string_cstring. rewrite Hdup.
  destruct f as [| | |e|e|e]; cbn [occurs fatal_code] in *.
  - now rewrite Hocc.
  - destruct Hocc as (Harch & plist & Hplist & Hsync).
    now rewrite Harch, Hplist, Hsync.
  - destruct Hocc as (plist & (Harch & Hplist & Hsync & [p Hp] & [p' Hp'] & Hcs) & Hd).
    apply Z.eqb_neq in Hsync.
    now rewrite Harch, Hplist, Hsync, Hp, Hp', Hcs, Hd.
  - destruct Hocc as (Harch & Hplist). now rewrite Harch, Hplist.
  - destruct Hocc as (Harch & plist & Hplist & Hsync & Halloc).
    apply Z.eqb_neq in Hsync. rewrite Harch, Hplist, Hsync. cbn [negb].
    destruct Halloc as [Hp | [[p Hp] [Hp' | [[p' Hp'] Hcs]]]].
    + now rewrite Hp.
    + now rewrite Hp, Hp'.
    + now rewrite Hp, Hp', Hcs.
  - destruct Hocc as (plist & (Harch & Hplist & Hsync & [p Hp] & [p' Hp'] & Hcs) & Hd & He).
    apply Z.eqb_neq in Hsync. apply Z.eqb_neq in He.
    now rewrite Harch, Hplist, Hsync, Hp, Hp', Hcs, Hd, He.
Qed.

(** C3.  In a build that gets past its entry checks: a failure to obtain
    the iterator makes the build return that [errno]; and for every
    location the loop reaches and does not skip as a duplicate, an
    architecture mismatch, a fetch failure or a missing index file only
    counts the location as missing and lets the loop go on with the next
    location (queue unchanged, both counters incremented), while a failed
    path resolution, allocation or internalization (other than "not
    found") ends the build, which returns that [errno]. *)
Theorem C3_failures_not_conflated (w : world) (st : state) (arr : prop_array) :
  repos_array (xhp st) = Some arr ->
  repolist_initialized st = false ->
  pa_refcnt arr <> 0 ->
  pa_items arr <> [] ->
  (forall e, prop_array_iterator_errno w = Some e ->
             xbps_repository_pool_init w st = Some (e, st)) /\
  (prop_array_iterator_errno w = None ->
   forall pre uri rest q ntotal nmissing f,
     pa_items arr = pre ++ uri :: rest ->
     init_loop w 0 pre (rpool_queue st) 0 0 = Continue q ntotal nmissing ->
     duprepo q uri = false ->
     occurs w (List.length pre) uri f ->
     match fatal_code f with
     | None =>
         init_loop w 0 (pa_items arr) (rpool_queue st) 0 0 =
         init_loop w (S (List.length pre)) rest q
           (size_wrap (ntotal + 1)) (size_wrap (nmissing + 1))
     | Some e =>
         xbps_repository_pool_init w st = Some (e, set_queue st q)
     end).
Proof.
  intros Harr Hflag Href Hitems. split.
  - intros e Hiter. unfold xbps_repository_pool_init.
    rewrite Harr, Hflag, Hiter.
    apply Nat.eqb_neq in Href. rewrite Href.
    destruct (pa_items arr); [contradiction|]. cbn [List.length Nat.eqb].
    now rewrite init_out_not_initialized.
  - intros Hiter pre uri rest q ntotal nmissing f Hsplit Hpre Hdup Hocc.
    assert (Hloop : init_loop w 0 (pa_items arr) (rpool_queue st) 0 0 =
                    match fatal_code f with
                    | None => init_loop w (S (List.length pre)) rest q
                                (size_wrap (ntotal + 1)) (size_wrap (nmissing + 1))
                    | Some e => GotoOut e q
                    end).
    { rewrite Hsplit, init_loop_app, Hpre. cbn [init_loop Nat.add].
      rewrite (init_body_occurs w _ uri q ntotal nmissing f Hdup Hocc).
      now destruct (fatal_code f). }
    destruct (fatal_code f) as [e|]; [|assumption].
    rewrite (init_runs_loop w st arr Harr Hflag Href Hitems Hiter).
    now rewrite Hloop.
Qed.

Lemma C3_failures_not_conflated_witness :
  let w := bad_index_world 1 EIO in
  let arr := mk_array 1 ["/a/i686"; "/b/noarch"] in
  let st := mk_state (Some arr) [] false in
  repos_array (xhp st) = Some arr /\
  repolist_initialized st = false /\
  pa_refcnt arr <> 0 /\
  pa_items arr <> [] /\
  occurs w 0 "/a/i686" ArchMismatch /\
  occurs w 1 "/b/noarch" (Deserialization EIO) /\
  init_loop w 0 (pa_items arr) [] 0 0 = init_loop w 1 ["/b/noarch"] [] 1 1 /\
  xbps_repository_pool_init w st = Some (EIO, st).
Proof.
  cbv zeta.
  assert (H1 : pa_refcnt (mk_array 1 ["/a/i686"; "/b/noarch"]) <> 0) by (simpl; lia).
  assert (H2 : pa_items (mk_array 1 ["/a/i686"; "/b/noarch"]) <> []) by (simpl; discriminate).
  assert (Ha : occurs (bad_index_world 1 EIO) 0 "/a/i686" ArchMismatch) by reflexivity.
  assert (Hb : occurs (bad_index_world 1 EIO) 1 "/b/noarch" (Deserialization EIO)).
  { exists "/b/noarch/pkg-index.plist". split; [|split; [reflexivity | discriminate]].
    repeat split; try reflexivity; try discriminate; eexists; reflexivity. }
  pose proof (C3_failures_not_conflated (bad_index_world 1 EIO)
                (mk_state (Some (mk_array 1 ["/a/i686"; "/b/noarch"])) [] false)
                (mk_array 1 ["/a/i686"; "/b/noarch"]) eq_refl eq_refl H1 H2) as [_ Hloc].
  specialize (Hloc eq_refl).
  split; [reflexivity|]. split; [reflexivity|].
  split; [exact H1|]. split; [exact H2|].
  split; [exact Ha|]. split; [exact Hb|]. split.
  - exact (Hloc [] "/a/i686" ["/b/noarch"] [] 0%Z 0%Z ArchMismatch eq_refl eq_refl eq_refl Ha).
  - exact (Hloc ["/a/i686"] "/b/noarch" [] [] 1%Z 1%Z (Deserialization EIO)
             eq_refl eq_refl eq_refl Hb).
Defined.

(** ** Repeated builds (claim C4) *)

(** The handle field is never set to NULL by the pool: whatever
    [xbps_repository_pool_init] returns, a handle that pointed to an array
    still points to one. *)
Lemma init_keeps_handle (w : world) (st st' : state) (rv : Z) (arr : prop_array) :
  repos_array (xhp st) = Some arr ->
  xbps_repository_pool_init w st = Some (rv, st') ->
  repos_array (xhp st') = Some arr \/
  repos_array (xhp st') = Some (prop_object_release arr) /\ repolist_initialized st' = true.
Proof.
  intros Harr Hinit. unfold xbps_repository_pool_init in Hinit. rewrite Harr in Hinit.
  destruct (repolist_initialized st) eqn:Hflag.
  { injection Hinit as _ <-. now left. }
  destruct (Nat.eqb (pa_refcnt arr) 0); [discriminate|].
  destruct (Nat.eqb (List.length (pa_items arr)) 0).
  { injection Hinit as _ <-. now left. }
  destruct (prop_array_iterator_errno w) as [e|].
  { rewrite init_out_not_initialized in Hinit by assumption.
    injection Hinit as _ <-. now left. }
  destruct (init_loop w 0 (pa_items arr) (rpool_queue st) 0 0) as [q nt nm|rv' q].
  - destruct (size_wrap (nt - nm) =? 0)%Z.
    + rewrite init_out_not_initialized in Hinit by assumption.
      injection Hinit as _ <-. now left.
    + injection Hinit as _ <-. right. split; reflexivity.
  - rewrite init_out_not_initialized in Hinit by assumption.
    injection Hinit as _ <-. now left.
Qed.

(** C4, as stated, fails: the test of the handle's array comes before the
    test of the flag.  On an initialized pool with one registered entry
    whose handle holds no array, the build returns ENOTSUP, not success. *)
Lemma C4_flag_set_build_fails :
  let st := mk_state None [mk_rpool 100 "/a/noarch" 0] true in
  repolist_initialized st = true /\
  xbps_repository_pool_init good_world st = Some (ENOTSUP, st) /\
  ENOTSUP <> 0%Z.
Proof. cbv zeta. repeat split. discriminate. Qed.

(** C4, amended.  On a pool whose flag is set, and whatever the
    collaborators would answer: when the handle holds an array the build
    returns 0 and leaves the handle, the queue and the flag as they were;
    when the handle holds none it returns ENOTSUP, with the state untouched
    too.  In particular, when [st] was left by a build that returned 0, a
    second build returns 0 and does nothing. *)
Theorem C4_init_idempotent (w : world) (st : state) :
  repolist_initialized st = true ->
  (forall arr, repos_array (xhp st) = Some arr ->
               xbps_repository_pool_init w st = Some (0%Z, st)) /\
  (repos_array (xhp st) = None ->
   xbps_repository_pool_init w st = Some (ENOTSUP, st)) /\
  (forall w0 st0, xbps_repository_pool_init w0 st0 = Some (0%Z, st) ->
                  xbps_repository_pool_init w st = Some (0%Z, st)).
Proof.
  intros Hflag.
  assert (Hsome : forall arr, repos_array (xhp st) = Some arr ->
                              xbps_repository_pool_init w st = Some (0%Z, st)).
  { intros arr Harr. unfold xbps_repository_pool_init. now rewrite Harr, Hflag. }
  split; [exact Hsome|]. split.
  - intros Hnone. unfold xbps_repository_pool_init. now rewrite Hnone.
  - intros w0 st0 Hprev.
    destruct (repos_array (xhp st0)) as [arr0|] eqn:Harr0.
    + destruct (init_keeps_handle w0 st0 st 0%Z arr0 Harr0 Hprev) as [H | [H _]];
        eapply Hsome; exact H.
    + unfold xbps_repository_pool_init in Hprev. rewrite Harr0 in Hprev.
      discriminate.
Qed.

Lemma C4_init_idempotent_witness :
  let st0 := mk_state (Some (mk_array 1 ["/a/noarch"])) [] false in
  let st := mk_state (Some (mk_array 0 ["/a/noarch"])) [mk_rpool 100 "/a/noarch" 0] true in
  repolist_initialized st = true /\
  xbps_repository_pool_init good_world st0 = Some (0%Z, st) /\
  xbps_repository_pool_init (bad_index_world 0 EIO) st = Some (0%Z, st).
Proof.
  cbv zeta. split; [reflexivity|]. split; [reflexivity|].
  exact (proj1 (C4_init_idempotent (bad_index_world 0 EIO)
                  (mk_state (Some (mk_array 0 ["/a/noarch"]))
                     [mk_rpool 100 "/a/noarch" 0] true)
                  eq_refl)
           (mk_array 0 ["/a/noarch"]) eq_refl).
Defined.

(** ** No usable repository (claim C6) *)

(** From a pool that satisfies the invariant and is not initialized (so
    that its registry is empty), a build whose loop runs to its end with
    [ntotal - nmissing == 0] returns ENOTSUP and leaves the registry empty
    and the flag clear: nothing was appended.  In particular this is what
    a build does when the only configured location fails the architecture
    check. *)
Lemma no_usable_repository_from_empty_registry (w : world) (st : state) (arr : prop_array) :
  repos_array (xhp st) = Some arr ->
  repolist_initialized st = false ->
  pool_invariant st ->
  pa_refcnt arr <> 0 ->
  prop_array_iterator_errno w = None ->
  (Z.of_nat (List.length (pa_items arr)) < size_modulus)%Z ->
  (forall q ntotal nmissing,
     init_loop w 0 (pa_items arr) (rpool_queue st) 0 0 = Continue q ntotal nmissing ->
     size_wrap (ntotal - nmissing) = 0%Z ->
     exists st',
       xbps_repository_pool_init w st = Some (ENOTSUP, st') /\
       rpool_queue st' = [] /\
       repolist_initialized st' = false) /\
  (forall uri,
     pa_items arr = [uri] ->
     check_repo_arch (un_machine w) uri = false ->
     exists st',
       xbps_repository_pool_init w st = Some (ENOTSUP, st') /\
       rpool_queue st' = [] /\
       repolist_initialized st' = false).
Proof.
  intros Harr Hflag Hinv Href Hiter Hlen.
  assert (Hempty : rpool_queue st = []) by now apply Hinv.
  assert (Hgen : forall q ntotal nmissing,
             init_loop w 0 (pa_items arr) (rpool_queue st) 0 0 = Continue q ntotal nmissing ->
             size_wrap (ntotal - nmissing) = 0%Z ->
             exists st',
               xbps_repository_pool_init w st = Some (ENOTSUP, st') /\
               rpool_queue st' = [] /\
               repolist_initialized st' = false).
  { intros q ntotal nmissing Hloop Hzero.
    destruct (init_loop_difference _ _ _ _ _ _ Hlen Hloop) as (new & Hq & Hdiff).
    rewrite Hzero in Hdiff.
    assert (Hnew : new = []) by (destruct new; [reflexivity | simpl in Hdiff; lia]).
    rewrite Hnew, Hempty in Hq. cbn [app] in Hq.
    destruct (pa_items arr) as [|uri objs] eqn:Hitems.
    - exists st. unfold xbps_repository_pool_init.
      rewrite Harr, Hflag, Hitems. apply Nat.eqb_neq in Href. rewrite Href.
      cbn [List.length Nat.eqb]. auto.
    - exists (set_queue st q).
      rewrite (init_runs_loop w st arr Harr Hflag Href) by (assumption || congruence).
      rewrite Hitems, Hloop, Hzero. cbn [Z.eqb].
      repeat split; [now rewrite Hq | assumption]. }
  split; [exact Hgen|].
  intros uri Hitems Harch.
  apply (Hgen [] (size_wrap (0 + 1)) (size_wrap (0 + 1))).
  - rewrite Hitems, Hempty. cbn [init_loop]. unfold init_body.
    cbn [duprepo existsb]. now rewrite Harch.
  - now rewrite Z.sub_diag.
Qed.

Lemma no_usable_repository_from_empty_registry_witness :
  let arr := mk_array 1 ["/x/i686"] in
  let st := mk_state (Some arr) [] false in
  pool_invariant st /\
  check_repo_arch (un_machine good_world) "/x/i686" = false /\
  exists st',
    xbps_repository_pool_init good_world st = Some (ENOTSUP, st') /\
    rpool_queue st' = [] /\
    repolist_initialized st' = false.
Proof.
  cbv zeta.
  assert (Hinv : pool_invariant (mk_state (Some (mk_array 1 ["/x/i686"])) [] false)).
  { unfold pool_invariant. simpl. tauto. }
  assert (Href : pa_refcnt (mk_array 1 ["/x/i686"]) <> 0) by (simpl; lia).
  assert (Hlen : (Z.of_nat (List.length (pa_items (mk_array 1 ["/x/i686"]))) < size_modulus)%Z)
    by reflexivity.
  split; [exact Hinv|]. split; [reflexivity|].
  exact (proj2 (no_usable_repository_from_empty_registry good_world
                  (mk_state (Some (mk_array 1 ["/x/i686"])) [] false)
                  (mk_array 1 ["/x/i686"]) eq_refl eq_refl Hinv Href eq_refl Hlen)
           "/x/i686" eq_refl eq_refl).
Defined.

(** C6.  The design asks that a build that ends with
    [ntotal - nmissing == 0] return ENOTSUP and leave the registry empty.
    The code returns ENOTSUP but does not empty the registry.  A first
    build of [/a/noarch; /b/noarch] in which the index of the second
    location fails to internalize with EIO leaves the entry of the first in
    the queue, the flag clear (the defect of C1).  On a second build, the
    index file of the second location now being absent (ENOENT), the first
    location is skipped as a duplicate, the second is counted and missing:
    the loop ends with [ntotal = nmissing = 1], the build returns ENOTSUP,
    and the entry of the first build is still registered, because the
    [xbps_repository_pool_release] called at [out] returns at once on a
    clear flag. *)
Theorem C6_unsupported_keeps_stale_entry :
  let arr := mk_array 1 ["/a/noarch"; "/b/noarch"] in
  let st0 := mk_state (Some arr) [] false in
  let st1 := mk_state (Some arr) [mk_rpool 100 "/a/noarch" 0] false in
  xbps_repository_pool_init (bad_index_world 1 EIO) st0 = Some (EIO, st1) /\
  init_loop (bad_index_world 1 ENOENT) 0 (pa_items arr) (rpool_queue st1) 0 0 =
  Continue (rpool_queue st1) 1 1 /\
  size_wrap (1 - 1) = 0%Z /\
  xbps_repository_pool_init (bad_index_world 1 ENOENT) st1 = Some (ENOTSUP, st1) /\
  rpool_queue st1 = [mk_rpool 100 "/a/noarch" 0].
Proof.
  cbv zeta. split; [vm_compute; reflexivity|].
  split; [vm_compute; reflexivity|]. split; [reflexivity|].
  split; [vm_compute; reflexivity | reflexivity].
Qed.

(** ** The codes a build returns (claim C9) *)

Lemma init_loop_fatal_source (w : world) (objs : list string) :
  forall i q ntotal nmissing rv q',
    init_loop w i objs q ntotal nmissing = GotoOut rv q' ->
    exists j, fatal_source w j rv.
Proof.
  induction objs as [|uri objs IH]; intros i q ntotal nmissing rv q' Hloop;
    cbn [init_loop] in Hloop; [discriminate|].
  pose proof (init_body_spec w i uri q ntotal nmissing) as Hbody.
  destruct (init_body w i uri q ntotal nmissing) as [q1 nt1 nm1|rv1 q1].
  - eapply IH. exact Hloop.
  - injection Hloop as <- <-. inversion Hbody; subst. now exists i.
Qed.

(** C9, as stated, fails: only the ENOENT of the internalization is
    absorbed.  When [xbps_pkg_index_plist] fails with [errno] set to ENOENT
    the build returns ENOENT. *)
Lemma C9_build_returns_not_found :
  let st := mk_state (Some (mk_array 1 ["/a/noarch"])) [] false in
  xbps_repository_pool_init (bad_path_world ENOENT) st = Some (ENOENT, st).
Proof. reflexivity. Qed.

(** C9, amended.  Whatever the collaborators do, the value a build
    returns is 0, ENOTSUP, the [errno] of a failure to obtain the iterator,
    to resolve a path, to allocate or to copy the URI, or the [errno] of a
    failed internalization other than ENOENT.  So the build returns ENOENT
    only when one of the collaborators other than the internalization
    failed with ENOENT: the ENOENT of an internalization is never
    returned. *)
Theorem C9_returned_codes (w : world) (st st' : state) (rv : Z) :
  xbps_repository_pool_init w st = Some (rv, st') ->
  (rv = 0%Z \/ rv = ENOTSUP \/
   prop_array_iterator_errno w = Some rv \/
   exists i, fatal_source w i rv) /\
  (rv = ENOENT ->
   prop_array_iterator_errno w = Some ENOENT \/
   exists i,
     (exists uri, xbps_pkg_index_plist w i uri = inr ENOENT) \/
     malloc_rpool w i = inr ENOENT \/
     malloc_rpi w i = inr ENOENT \/
     prop_string_cstring_errno w i = Some ENOENT).
Proof.
  intros Hinit.
  assert (Hcodes : rv = 0%Z \/ rv = ENOTSUP \/
                   prop_array_iterator_errno w = Some rv \/
                   exists i, fatal_source w i rv).
  { unfold xbps_repository_pool_init in Hinit.
    destruct (repos_array (xhp st)) as [arr|]; [|injection Hinit as <- _; auto].
    destruct (repolist_initialized st) eqn:Hflag; [injection Hinit as <- _; auto|].
    destruct (Nat.eqb (pa_refcnt arr) 0); [discriminate|].
    destruct (Nat.eqb (List.length (pa_items arr)) 0); [injection Hinit as <- _; auto|].
    destruct (prop_array_iterator_errno w) as [e|].
    { rewrite init_out_not_initialized in Hinit by assumption.
      injection Hinit as <- _. auto. }
    destruct (init_loop w 0 (pa_items arr) (rpool_queue st) 0 0) as [q nt nm|rv' q] eqn:Hloop.
    - destruct (size_wrap (nt - nm) =? 0)%Z.
      + rewrite init_out_not_initialized in Hinit by assumption.
        injection Hinit as <- _. auto.
      + injection Hinit as <- _. auto.
    - rewrite init_out_not_initialized in Hinit by assumption.
      injection Hinit as <- _.
      right; right; right. eapply init_loop_fatal_source. exact Hloop. }
  split; [exact Hcodes|].
  intros ->.
  destruct Hcodes as [H | [H | [H | [i H]]]]; try discriminate; [now left|].
  right. exists i.
  destruct H as [H | [H | [H | [H | (plist & _ & H)]]]]; auto.
  contradiction.
Qed.

Lemma C9_returned_codes_witness :
  let w := bad_index_world 1 EIO in
  let st := mk_state (Some (mk_array 1 ["/a/noarch"; "/b/noarch"])) [] false in
  let st' := mk_state (Some (mk_array 1 ["/a/noarch"; "/b/noarch"]))
               [mk_rpool 100 "/a/noarch" 0] false in
  xbps_repository_pool_init w st = Some (EIO, st') /\
  (EIO = 0%Z \/ EIO = ENOTSUP \/
   prop_array_iterator_errno w = Some EIO \/
   exists i, fatal_source w i EIO).
Proof.
  cbv zeta. split; [reflexivity|].
  exact (proj1 (C9_returned_codes (bad_index_world 1 EIO)
                  (mk_state (Some (mk_array 1 ["/a/noarch"; "/b/noarch"])) [] false)
                  (mk_state (Some (mk_array 1 ["/a/noarch"; "/b/noarch"]))
                     [mk_rpool 100 "/a/noarch" 0] false)
                  EIO eq_refl)).
Defined.

(** ** The configured array after a successful build (claim C10) *)

(** What is known of a build that started on a pool that was not
    initialized and left it initialized. *)
Lemma init_success_inv (w : world) (st st1 : state) (arr : prop_array) (rv : Z) :
  repos_array (xhp st) = Some arr ->
  repolist_initialized st = false ->
  xbps_repository_pool_init w st = Some (rv, st1) ->
  repolist_initialized st1 = true ->
  rv = 0%Z /\
  pa_refcnt arr <> 0 /\
  pa_items arr <> [] /\
  prop_array_iterator_errno w = None /\
  exists q ntotal nmissing,
    init_loop w 0 (pa_items arr) (rpool_queue st) 0 0 = Continue q ntotal nmissing /\
    size_wrap (ntotal - nmissing) <> 0%Z /\
    st1 = {| xhp := {| repos_array := Some (prop_object_release arr) |};
             rpool_queue := q;
             repolist_initialized := true |}.
Proof.
  intros Harr Hflag Hinit Hflag1.
  unfold xbps_repository_pool_init in Hinit. rewrite Harr, Hflag in Hinit.
  destruct (Nat.eqb (pa_refcnt arr) 0) eqn:Href; [discriminate|].
  destruct (Nat.eqb (List.length (pa_items arr)) 0) eqn:Hcount.
  { injection Hinit as _ <-. congruence. }
  destruct (prop_array_iterator_errno w) as [e|].
  { rewrite init_out_not_initialized in Hinit by assumption.
    injection Hinit as _ <-. congruence. }
  destruct (init_loop w 0 (pa_items arr) (rpool_queue st) 0 0) as [q nt nm|rv' q].
  - destruct (size_wrap (nt - nm) =? 0)%Z eqn:Hz.
    + rewrite init_out_not_initialized in Hinit by assumption.
      injection Hinit as _ <-. simpl in Hflag1. congruence.
    + injection Hinit as <- <-.
      split; [reflexivity|]. split; [now apply Nat.eqb_neq|].
      split; [intros H; now rewrite H in Hcount|]. split; [reflexivity|].
      exists q, nt, nm. split; [reflexivity|]. split; [now apply Z.eqb_neq | reflexivity].
  - rewrite init_out_not_initialized in Hinit by assumption.
    injection Hinit as _ <-. simpl in Hflag1. congruence.
Qed.

(** A pool that is not initialized and whose handle points to an array
    that has lost its last reference: the build reads the destroyed array,
    and nothing is known of what it does. *)
Lemma init_destroyed_array (w : world) (st : state) (arr : prop_array) :
  repos_array (xhp st) = Some arr ->
  repolist_initialized st = false ->
  pa_refcnt arr = 0 ->
  xbps_repository_pool_init w st = None.
Proof.
  intros Harr Hflag Href. unfold xbps_repository_pool_init.
  now rewrite Harr, Hflag, Href.
Qed.

(** C10, as stated, fails: the build drops one reference to the array and
    leaves the handle pointing to it.  With an array that has another
    holder (two references), build, release, build again: the second build
    returns 0, not ENOTSUP, and registers the repository again. *)
Lemma C10_second_build_rebuilds :
  let st0 := mk_state (Some (mk_array 2 ["/a/noarch"])) [] false in
  let st1 := mk_state (Some (mk_array 1 ["/a/noarch"])) [mk_rpool 100 "/a/noarch" 0] true in
  let st2 := mk_state (Some (mk_array 1 ["/a/noarch"])) [] false in
  let st3 := mk_state (Some (mk_array 0 ["/a/noarch"])) [mk_rpool 100 "/a/noarch" 0] true in
  xbps_repository_pool_init good_world st0 = Some (0%Z, st1) /\
  xbps_repository_pool_release st1 = st2 /\
  xbps_repository_pool_init good_world st2 = Some (0%Z, st3) /\
  ENOTSUP <> 0%Z.
Proof. cbv zeta. repeat split. discriminate. Qed.

(** C10, amended.  A build that initializes the pool drops one reference
    to the configured array and leaves the handle pointing to it; the
    release that follows empties the registry, clears the flag and leaves
    the handle alone.  A further build returns ENOTSUP and leaves the pool
    empty when the handle field has been set to NULL in between, which the
    pool itself never does. *)
Theorem C10_handle_after_build (w : world) (st st1 : state) (arr : prop_array) :
  repos_array (xhp st) = Some arr ->
  repolist_initialized st = false ->
  xbps_repository_pool_init w st = Some (0%Z, st1) ->
  repolist_initialized st1 = true ->
  let st2 := xbps_repository_pool_release st1 in
  repos_array (xhp st1) = Some (prop_object_release arr) /\
  st2 = mk_state (Some (prop_object_release arr)) [] false /\
  forall w',
    xbps_repository_pool_init w' (with_repos_array st2 None) =
    Some (ENOTSUP, with_repos_array st2 None) /\
    rpool_queue (with_repos_array st2 None) = [].
Proof.
  intros Harr Hflag Hinit Hflag1 st2.
  destruct (init_success_inv w st st1 arr 0%Z Harr Hflag Hinit Hflag1)
    as (_ & Href & Hitems & Hiter & q & nt & nm & Hloop & Hz & Hst1).
  assert (Hst2 : st2 = mk_state (Some (prop_object_release arr)) [] false).
  { subst st2. rewrite Hst1. unfold xbps_repository_pool_release. cbn.
    now rewrite release_loop_nil. }
  split; [now rewrite Hst1|]. split; [exact Hst2|].
  intros w'. rewrite Hst2. split; reflexivity.
Qed.

Lemma C10_handle_after_build_witness :
  let arr := mk_array 2 ["/a/noarch"] in
  let st := mk_state (Some arr) [] false in
  let st1 := mk_state (Some (mk_array 1 ["/a/noarch"])) [mk_rpool 100 "/a/noarch" 0] true in
  xbps_repository_pool_init good_world st = Some (0%Z, st1) /\
  xbps_repository_pool_release st1 = mk_state (Some (prop_object_release arr)) [] false.
Proof.
  cbv zeta. split; [reflexivity|].
  exact (proj1 (proj2 (C10_handle_after_build good_world
                         (mk_state (Some (mk_array 2 ["/a/noarch"])) [] false)
                         (mk_state (Some (mk_array 1 ["/a/noarch"]))
                            [mk_rpool 100 "/a/noarch" 0] true)
                         (mk_array 2 ["/a/noarch"])
                         eq_refl eq_refl eq_refl eq_refl))).
Defined.

(** When the array still has a holder and the collaborators answer as
    they did, a build that follows a successful build and a release runs
    over the same array again and registers the same entries. *)
Lemma init_again_after_release (w : world) (st st1 : state) (arr : prop_array) :
  repos_array (xhp st) = Some arr ->
  repolist_initialized st = false ->
  rpool_queue st = [] ->
  xbps_repository_pool_init w st = Some (0%Z, st1) ->
  repolist_initialized st1 = true ->
  pa_refcnt arr > 1 ->
  xbps_repository_pool_init w (xbps_repository_pool_release st1) =
  Some (0%Z, mk_state (Some (prop_object_release (prop_object_release arr)))
               (rpool_queue st1) true).
Proof.
  intros Harr Hflag Hempty Hinit Hflag1 Hmany.
  destruct (init_success_inv w st st1 arr 0%Z Harr Hflag Hinit Hflag1)
    as (_ & Href & Hitems & Hiter & q & nt & nm & Hloop & Hz & Hst1).
  assert (Hrel : xbps_repository_pool_release st1 =
                 mk_state (Some (prop_object_release arr)) [] false).
  { rewrite Hst1. unfold xbps_repository_pool_release.
    cbn [repolist_initialized negb xhp rpool_queue].
    now rewrite release_loop_nil. }
  rewrite Hrel.
  rewrite (init_runs_loop w _ (prop_object_release arr)); cbn; try easy; try lia.
  rewrite Hempty in Hloop. rewrite Hloop.
  apply Z.eqb_neq in Hz. rewrite Hz. now rewrite Hst1.
Qed.

(** ** The traversal *)

Lemma addrs_app (q1 q2 : list repository_pool) : addrs (q1 ++ q2) = addrs q1 ++ addrs q2.
Proof. apply map_app. Qed.

Lemma NoDup_addrs_mid (kept rest : list repository_pool) (n : repository_pool) :
  NoDup (addrs (kept ++ n :: rest)) ->
  ~ In (rp_addr n) (addrs kept) /\ NoDup (addrs (kept ++ rest)).
Proof.
  rewrite !addrs_app. cbn [addrs map]. intros H. split.
  - apply NoDup_remove_2 in H. intros Hin. apply H. apply in_or_app. now left.
  - now apply NoDup_remove_1 in H.
Qed.

Lemma sqe_lookup_mid (kept rest : list repository_pool) (n : repository_pool) :
  ~ In (rp_addr n) (addrs kept) ->
  sqe_lookup (kept ++ n :: rest) (rp_addr n) = Some (n, SIMPLEQ_FIRST rest).
Proof.
  induction kept as [|m kept IH]; cbn [app sqe_lookup addrs map In]; intros Hnot.
  - now rewrite Nat.eqb_refl.
  - destruct (Nat.eqb (rp_addr m) (rp_addr n)) eqn:E.
    + apply Nat.eqb_eq in E. tauto.
    + apply IH. tauto.
Qed.

Lemma SIMPLEQ_REMOVE_mid (kept rest : list repository_pool) (n : repository_pool) :
  ~ In (rp_addr n) (addrs kept) ->
  SIMPLEQ_REMOVE (kept ++ n :: rest) (rp_addr n) = kept ++ rest.
Proof.
  induction kept as [|m kept IH]; cbn [app SIMPLEQ_REMOVE addrs map In]; intros Hnot.
  - now rewrite Nat.eqb_refl.
  - destruct (Nat.eqb (rp_addr m) (rp_addr n)) eqn:E.
    + apply Nat.eqb_eq in E. tauto.
    + f_equal. apply IH. tauto.
Qed.

Lemma walked_prefix rest rv vs rv' :
  walked rest rv vs rv' ->
  map v_rpi vs = map rpi (firstn (List.length vs) rest).
Proof.
  induction 1; cbn [List.length firstn map]; try reflexivity; congruence.
Qed.

Lemma last_cons_default {A : Type} (x : A) (l : list A) (d d' : A) :
  last (x :: l) d = last (x :: l) d'.
Proof.
  revert x. induction l as [|y l IH]; intros x; [reflexivity|].
  change (last (y :: l) d = last (y :: l) d'). apply IH.
Qed.

Lemma walked_complete rest rv vs rv' :
  walked rest rv vs rv' ->
  Forall continues vs ->
  List.length vs = List.length rest /\ (rv = 0%Z -> rv' = 0%Z).
Proof.
  induction 1 as [rv|n rest rv v Hn Hs|n rest rv v vs rv' Hn Hc Hw IH]; intros Hall.
  - split; auto.
  - inversion Hall as [|? ? [H1 H2] _]; subst. destruct Hs; congruence.
  - inversion Hall as [|? ? _ Hall']; subst.
    destruct (IH Hall') as [Hlen Hrv]. split; [cbn; congruence|].
    intros _. apply Hrv. apply Hc.
Qed.

Lemma stop_test_true (rv : Z) (done : bool) (r : repository_pool_index) :
  negb (rv =? 0)%Z || done = true ->
  stops {| v_rpi := r; v_rv := rv; v_done := done |}.
Proof.
  unfold stops. cbn. intros H. apply orb_true_iff in H. destruct H as [H | H].
  - left. apply negb_true_iff in H. now apply Z.eqb_neq.
  - now right.
Qed.

Lemma stop_test_false (rv : Z) (done : bool) (r : repository_pool_index) :
  negb (rv =? 0)%Z || done = false ->
  continues {| v_rpi := r; v_rv := rv; v_done := done |}.
Proof.
  unfold continues. cbn. intros H. apply orb_false_iff in H. destruct H as [H ->].
  apply negb_false_iff in H. split; [now apply Z.eqb_eq | reflexivity].
Qed.

(** Whatever the callback does, if the traversal returns then every
    visit but the last let it go on, and the status returned is that of
    the last visit. *)
Lemma foreach_loop_stops {A : Type} (fn : callback A) :
  forall fuel var rv arg st f,
    foreach_loop fuel fn var rv arg st = Returns f ->
    Forall continues (removelast (fr_visits f)) /\
    fr_rv f = last (map v_rv (fr_visits f)) rv.
Proof.
  induction fuel as [|fuel IH]; intros var rv arg st f Hrun.
  - destruct var; cbn in Hrun; [discriminate|].
    injection Hrun as <-. cbn. auto.
  - destruct var as [p|]; cbn [foreach_loop] in Hrun;
      [|injection Hrun as <-; cbn; auto].
    destruct (sqe_lookup (rpool_queue st) p) as [[rpool rpool_new]|]; [|discriminate].
    destruct (fn (rpi rpool) arg st) as [[[rv' done] arg'] st'].
    destruct (negb (rv' =? 0)%Z || done) eqn:Hstop.
    + injection Hrun as <-. cbn. auto.
    + destruct (foreach_loop fuel fn rpool_new rv' arg' st') as [f0| |] eqn:Hrec;
        cbn [add_visit] in Hrun; try discriminate.
      injection Hrun as <-. cbn [fr_visits fr_rv].
      destruct (IH _ _ _ _ _ Hrec) as [Hall Hlast].
      apply (stop_test_false _ _ (rpi rpool)) in Hstop.
      destruct (fr_visits f0) as [|v0 vs0] eqn:Hvs.
      * cbn. split; [constructor | exact Hlast].
      * split.
        -- change (Forall continues
                     ({| v_rpi := rpi rpool; v_rv := rv'; v_done := done |}
                        :: removelast (v0 :: vs0))).
           now constructor.
        -- rewrite Hlast. cbn [map].
           change (last (v_rv v0 :: map v_rv vs0) rv' =
                   last (v_rv v0 :: map v_rv vs0) rv).
           apply last_cons_default.
Qed.

Lemma foreach_loop_end {A : Type} (fn : callback A) (fuel : nat)
    (rv : Z) (arg : A) (st : state) :
  foreach_loop fuel fn None rv arg st =
  Returns {| fr_rv := rv; fr_arg := arg; fr_state := st; fr_visits := [] |}.
Proof. destruct fuel; reflexivity. Qed.

Section Walk.
Context {A : Type} (fn : callback A) (ok : list repository_pool -> Prop).

(** The queues the callback is run on stay within [ok] when an entry is
    unlinked, and the callback either leaves the queue as it is or
    unlinks the entry it is visiting. *)
Hypothesis ok_remove : forall q p, ok q -> ok (SIMPLEQ_REMOVE q p).
Hypothesis fn_policy :
  forall n a s,
    NoDup (addrs (rpool_queue s)) -> ok (rpool_queue s) -> In n (rpool_queue s) ->
    rpool_queue (snd (fn (rpi n) a s)) = rpool_queue s \/
    rpool_queue (snd (fn (rpi n) a s)) = SIMPLEQ_REMOVE (rpool_queue s) (rp_addr n).

(** With [rest] still to visit and [kept] the visited entries that are
    still linked, the traversal returns, having walked [rest]. *)
Lemma foreach_loop_walked :
  forall rest kept fuel rv arg st,
    rpool_queue st = kept ++ rest ->
    NoDup (addrs (kept ++ rest)) ->
    ok (kept ++ rest) ->
    List.length rest <= fuel ->
    exists f,
      foreach_loop fuel fn (SIMPLEQ_FIRST rest) rv arg st = Returns f /\
      walked rest rv (fr_visits f) (fr_rv f).
Proof.
  induction rest as [|n rest IH]; intros kept fuel rv arg st Hq Hnd Hok Hfuel.
  - cbn [SIMPLEQ_FIRST]. rewrite foreach_loop_end.
    eexists. split; [reflexivity|]. cbn. constructor.
  - destruct fuel as [|fuel]; [cbn in Hfuel; lia|].
    cbn [List.length] in Hfuel. apply le_S_n in Hfuel.
    destruct (NoDup_addrs_mid kept rest n Hnd) as [Hnot Hnd'].
    cbn [SIMPLEQ_FIRST foreach_loop]. rewrite Hq, (sqe_lookup_mid kept rest n Hnot).
    assert (Hin : In n (rpool_queue st)).
    { rewrite Hq. apply in_or_app. right. now left. }
    rewrite <- Hq in Hnd, Hok.
    pose proof (fn_policy n arg st Hnd Hok Hin) as Hpol.
    destruct (fn (rpi n) arg st) as [[[rv' done] arg'] st'].
    cbn [snd] in Hpol.
    destruct (negb (rv' =? 0)%Z || done) eqn:Hstop.
    + eexists. split; [reflexivity|]. cbn [fr_visits fr_rv].
      apply (walked_stop n rest rv
               {| v_rpi := rpi n; v_rv := rv'; v_done := done |});
        [reflexivity | now apply stop_test_true].
    + assert (Hnext : exists kept',
                 rpool_queue st' = kept' ++ rest /\
                 NoDup (addrs (kept' ++ rest)) /\ ok (kept' ++ rest)).
      { destruct Hpol as [Hsame | Hrm].
        - exists (kept ++ [n]). rewrite <- app_assoc. cbn [app].
          rewrite Hsame, <- Hq. auto.
        - exists kept. rewrite Hrm.
          rewrite <- (SIMPLEQ_REMOVE_mid kept rest n Hnot), <- Hq.
          split; [reflexivity|]. split.
          + rewrite Hq, (SIMPLEQ_REMOVE_mid kept rest n Hnot). exact Hnd'.
          + now apply ok_remove. }
      destruct Hnext as (kept' & Hq' & Hnd'' & Hok').
      destruct (IH kept' fuel rv' arg' st' Hq' Hnd'' Hok' Hfuel) as (f0 & Hrun & Hw).
      rewrite Hrun. cbn [add_visit]. eexists. split; [reflexivity|].
      cbn [fr_visits fr_rv].
      apply (walked_next n rest rv
               {| v_rpi := rpi n; v_rv := rv'; v_done := done |});
        [reflexivity | now apply stop_test_false | exact Hw].
Qed.
End Walk.

(** ** Early stop of the traversal (claim C7) *)

(** C7.  Let the build at the start of [xbps_repository_pool_foreach]
    succeed and leave the state [st1].
    - Whatever the callback does, when the traversal returns, every visit
      but the last returned 0 without setting the stop signal (so nothing
      is visited after a visit that asks to stop), and the value returned
      is the status of the last visit, 0 when there was none.
    - For a callback that leaves the queue alone, the traversal returns,
      the entries visited are an initial segment of the registry, in
      order, and when no visit asked to stop every entry was visited and
      the value returned is 0.
    - With three entries and a callback that returns 0 on the first and
      sets the stop signal on the second, exactly these two are visited and
      the status of the second call is returned. *)
Theorem C7_foreach_early_stop {A : Type} (w : world) (fn : callback A) (arg : A)
    (st st1 : state) :
  xbps_repository_pool_init w st = Some (0%Z, st1) ->
  (forall fuel f,
     xbps_repository_pool_foreach w fuel fn arg st = Returns f ->
     Forall continues (removelast (fr_visits f)) /\
     fr_rv f = last (map v_rv (fr_visits f)) 0%Z) /\
  (NoDup (addrs (rpool_queue st1)) ->
   (forall r a s, rpool_queue (snd (fn r a s)) = rpool_queue s) ->
   forall fuel, List.length (rpool_queue st1) <= fuel ->
   exists f,
     xbps_repository_pool_foreach w fuel fn arg st = Returns f /\
     map v_rpi (fr_visits f) =
     map rpi (firstn (List.length (fr_visits f)) (rpool_queue st1)) /\
     (Forall continues (fr_visits f) ->
      List.length (fr_visits f) = List.length (rpool_queue st1) /\ fr_rv f = 0%Z)) /\
  (forall n1 n2 n3 a1 s1 rv2 a2 s2,
     rpool_queue st1 = [n1; n2; n3] ->
     NoDup [rp_addr n1; rp_addr n2; rp_addr n3] ->
     fn (rpi n1) arg st1 = (0%Z, false, a1, s1) ->
     rpool_queue s1 = rpool_queue st1 ->
     fn (rpi n2) a1 s1 = (rv2, true, a2, s2) ->
     forall fuel, 2 <= fuel ->
     xbps_repository_pool_foreach w fuel fn arg st =
     Returns {| fr_rv := rv2; fr_arg := a2; fr_state := s2;
                fr_visits := [ {| v_rpi := rpi n1; v_rv := 0%Z; v_done := false |};
                               {| v_rpi := rpi n2; v_rv := rv2; v_done := true |} ] |}).
Proof.
  intros Hinit.
  assert (Hrun : forall fuel,
             xbps_repository_pool_foreach w fuel fn arg st =
             foreach_loop fuel fn (SIMPLEQ_FIRST (rpool_queue st1)) 0%Z arg st1).
  { intros fuel. unfold xbps_repository_pool_foreach. now rewrite Hinit. }
  split; [|split].
  - intros fuel f Hf. rewrite Hrun in Hf. now apply foreach_loop_stops in Hf.
  - intros Hnd Hsame fuel Hfuel.
    destruct (foreach_loop_walked fn (fun _ => True) (fun _ _ _ => I)
                (fun n a s _ _ _ => or_introl (Hsame (rpi n) a s))
                (rpool_queue st1) [] fuel 0%Z arg st1 eq_refl Hnd I Hfuel)
      as (f & Hf & Hw).
    exists f. rewrite Hrun. split; [exact Hf|]. split.
    + exact (walked_prefix _ _ _ _ Hw).
    + intros Hall. destruct (walked_complete _ _ _ _ Hw Hall) as [Hlen Hrv]. auto.
  - intros n1 n2 n3 a1 s1 rv2 a2 s2 Hq Hnd Hfn1 Hq1 Hfn2 fuel Hfuel.
    rewrite Hrun, Hq.
    destruct fuel as [|[|fuel]]; try lia.
    assert (Hne : Nat.eqb (rp_addr n1) (rp_addr n2) = false).
    { apply Nat.eqb_neq. inversion Hnd as [|? ? Hnot _]; subst.
      intros E. apply Hnot. now left. }
    cbn [SIMPLEQ_FIRST foreach_loop]. rewrite Hq.
    cbn [sqe_lookup]. rewrite Nat.eqb_refl, Hfn1.
    cbn [negb orb Z.eqb SIMPLEQ_FIRST]. rewrite Hq1, Hq.
    cbn [sqe_lookup]. rewrite Hne, Nat.eqb_refl, Hfn2.
    rewrite orb_true_r. reflexivity.
Qed.

Lemma C7_foreach_early_stop_witness :
  xbps_repository_pool_init good_world three_repos = Some (0%Z, three_repos) /\
  xbps_repository_pool_foreach good_world 3 stop_at_second 0 three_repos =
  Returns {| fr_rv := 7%Z; fr_arg := 2; fr_state := three_repos;
             fr_visits :=
               [ {| v_rpi := {| rpi_uri := "/a/noarch"; rpi_repod := 0 |};
                    v_rv := 0%Z; v_done := false |};
                 {| v_rpi := {| rpi_uri := "/b/noarch"; rpi_repod := 1 |};
                    v_rv := 7%Z; v_done := true |} ] |}.
Proof.
  split; [reflexivity|].
  assert (Hnd : NoDup [100; 101; 102]).
  { repeat constructor; cbn; lia. }
  exact (proj2 (proj2 (C7_foreach_early_stop good_world stop_at_second 0
                         three_repos three_repos eq_refl))
           (mk_rpool 100 "/a/noarch" 0) (mk_rpool 101 "/b/noarch" 1)
           (mk_rpool 102 "/c/noarch" 2) 1 three_repos 7%Z 2 three_repos
           eq_refl Hnd eq_refl eq_refl eq_refl 3 (le_S _ _ (le_n 2))).
Defined.

(** ** Unlinking the current entry during the traversal (claim C8) *)






(** Without the pre-fetch the same traversal reads the link of a node
    that the callback has just unlinked. *)
Example unregister_current_nofetch :
  foreach_loop_nofetch 3 unregister_current
    (SIMPLEQ_FIRST (rpool_queue three_repos)) 0%Z tt three_repos = Undefined.
Proof. reflexivity. Qed.

(** On [three_repos], [unregister_current] is invoked on the three
    indexes in order, and leaves the queue empty. *)
Example unregister_current_three_repos :
  xbps_repository_pool_foreach good_world 3 unregister_current tt three_repos =
  Returns {| fr_rv := 0%Z; fr_arg := tt;
             fr_state := set_queue three_repos [];
             fr_visits :=
               [ {| v_rpi := {| rpi_uri := "/a/noarch"; rpi_repod := 0 |};
                    v_rv := 0%Z; v_done := false |};
                 {| v_rpi := {| rpi_uri := "/b/noarch"; rpi_repod := 1 |};
                    v_rv := 0%Z; v_done := false |};
                 {| v_rpi := {| rpi_uri := "/c/noarch"; rpi_repod := 2 |};
                    v_rv := 0%Z; v_done := false |} ] |}.
Proof. reflexivity. Qed.

(** ** Deduplication and order of the registry (claim C5) *)

Lemma init_body_registers (w : world) (i : nat) (uri : string)
    (q : list repository_pool) (ntotal nmissing : Z) (p : addr) (d : prop_dictionary) :
  duprepo q uri = false ->
  registers w i uri p d ->
  init_body w i uri q ntotal nmissing =
  Continue (q ++ [mk_rpool p uri d]) (size_wrap (ntotal + 1)) nmissing.
Proof.
  intros Hdup (plist & (Harch & Hplist & Hsync & _ & [p' Hp'] & Hcs) & Hp & Hd).
  unfold init_body, prop_string_cstring, SIMPLEQ_INSERT_TAIL.
  apply Z.eqb_neq in Hsync.
  now rewrite Hdup, Harch, Hplist, Hsync, Hp, Hp', Hcs, Hd.
Qed.

Lemma init_body_dup (w : world) (i : nat) (uri : string)
    (q : list repository_pool) (ntotal nmissing : Z) :
  duprepo q uri = true ->
  init_body w i uri q ntotal nmissing = Continue q ntotal nmissing.
Proof. intros Hdup. unfold init_body. now rewrite Hdup. Qed.

(** Whatever a build returns, it has only appended entries to the queue,
    for locations taken from the array in the order of the array, and it
    has not registered a URI twice. *)
Lemma init_registry_dedup_order (w : world) (st st' : state) (rv : Z) :
  xbps_repository_pool_init w st = Some (rv, st') ->
  NoDup (uris (rpool_queue st)) ->
  NoDup (uris (rpool_queue st')) /\
  exists new,
    rpool_queue st' = rpool_queue st ++ new /\
    forall arr, repos_array (xhp st) = Some arr -> subseq (uris new) (pa_items arr).
Proof.
  intros Hinit Hnd.
  assert (Hsame : st' = st ->
            NoDup (uris (rpool_queue st')) /\
            exists new,
              rpool_queue st' = rpool_queue st ++ new /\
              forall arr, repos_array (xhp st) = Some arr ->
                          subseq (uris new) (pa_items arr)).
  { intros ->. split; [assumption|]. exists []. rewrite app_nil_r.
    split; [reflexivity|]. intros; constructor. }
  unfold xbps_repository_pool_init in Hinit.
  destruct (repos_array (xhp st)) as [arr|] eqn:Harr;
    [|injection Hinit as _ <-; now apply Hsame].
  destruct (repolist_initialized st) eqn:Hflag;
    [injection Hinit as _ <-; now apply Hsame|].
  destruct (Nat.eqb (pa_refcnt arr) 0); [discriminate|].
  destruct (Nat.eqb (List.length (pa_items arr)) 0);
    [injection Hinit as _ <-; now apply Hsame|].
  destruct (prop_array_iterator_errno w) as [e|].
  { rewrite init_out_not_initialized in Hinit by assumption.
    injection Hinit as _ <-. now apply Hsame. }
  pose proof (init_loop_post w (pa_items arr) 0 (rpool_queue st) 0 0) as Hpost.
  destruct (init_loop w 0 (pa_items arr) (rpool_queue st) 0 0) as [q nt nm|rv' q];
    cbn [loop_post] in Hpost.
  - destruct Hpost as (new & kt & km & Hq & Hsub & Hnd' & _).
    assert (Hst' : rpool_queue st' = q).
    { destruct (size_wrap (nt - nm) =? 0)%Z.
      - rewrite init_out_not_initialized in Hinit by assumption.
        now injection Hinit as _ <-.
      - now injection Hinit as _ <-. }
    rewrite Hst'. split; [now apply Hnd'|].
    exists new. split; [assumption|]. intros arr' E. now injection E as <-.
  - destruct Hpost as (new & Hq & Hsub & Hnd').
    rewrite init_out_not_initialized in Hinit by assumption.
    injection Hinit as _ <-. cbn [set_queue rpool_queue].
    split; [now apply Hnd'|].
    exists new. split; [assumption|]. intros arr' E. now injection E as <-.
Qed.



Lemma good_world_registers (i : nat) (uri : string) :
  check_repo_arch "x86_64" uri = true ->
  registers good_world i uri (100 + i) i.
Proof.
  intros Harch. exists (String.append uri "/pkg-index.plist").
  split; [|split; reflexivity].
  split; [exact Harch|]. split; [reflexivity|]. split; [discriminate|].
  split; [now exists (100 + i)|]. split; [now exists (200 + i)|reflexivity].
Qed.



(** * Further properties of the routines *)

(** ** check_repo_arch *)

Lemma strrchr_slash_free (s : string) :
  slash_free s = true -> strrchr s "/"%char = None.
Proof.
  induction s as [|a s IH]; cbn [slash_free strrchr]; intros H; [reflexivity|].
  apply andb_true_iff in H. destruct H as [Ha Hs].
  rewrite (IH Hs). apply negb_true_iff in Ha. now rewrite Ha.
Qed.

Lemma strrchr_last_component (pre comp : string) :
  slash_free comp = true ->
  strrchr (String.append pre (String "/"%char comp)) "/"%char =
  Some (String "/"%char comp).
Proof.
  intros Hc. induction pre as [|a pre IH]; cbn [String.append strrchr].
  - rewrite (strrchr_slash_free comp Hc). reflexivity.
  - now rewrite IH.
Qed.

Lemma strrchr_inv (s p : string) :
  strrchr s "/"%char = Some p ->
  exists pre comp,
    s = String.append pre (String "/"%char comp) /\
    p = String "/"%char comp /\
    slash_free comp = true.
Proof.
  revert p. induction s as [|a s IH]; cbn [strrchr]; intros p H; [discriminate|].
  destruct (strrchr s "/"%char) as [p'|] eqn:Hs.
  - injection H as <-. destruct (IH p' eq_refl) as (pre & comp & -> & -> & Hc).
    exists (String a pre), comp. auto.
  - destruct (Ascii.eqb a "/"%char) eqn:Ha; [|discriminate].
    injection H as <-. apply Ascii.eqb_eq in Ha. subst a.
    exists EmptyString, s. repeat split.
    clear IH. induction s as [|b s IH]; [reflexivity|].
    cbn [strrchr] in Hs. cbn [slash_free].
    destruct (strrchr s "/"%char); [discriminate|].
    destruct (Ascii.eqb b "/"%char); [discriminate|]. now apply IH.
Qed.

(** X1.  Only what follows the last '/' of the URI counts: for a URI
    [pre/comp] whose last component [comp] holds no '/',
    [check_repo_arch] answers true exactly when [comp] is not empty and is
    "noarch" or the machine name of the host; what [pre] is does not
    matter. *)
Theorem check_repo_arch_last_component (machine pre comp : string) :
  slash_free comp = true ->
  check_repo_arch machine (String.append pre (String "/"%char comp)) =
  negb (String.eqb comp "") && (String.eqb comp "noarch" || String.eqb comp machine).
Proof.
  intros Hc. unfold check_repo_arch. rewrite (strrchr_last_component pre comp Hc).
  destruct (String.eqb comp ""); [reflexivity|]. cbn [negb andb].
  destruct (String.eqb comp "noarch"); [reflexivity|].
  destruct (String.eqb comp machine); reflexivity.
Qed.

Lemma check_repo_arch_last_component_witness :
  slash_free "x86_64" = true /\
  check_repo_arch "x86_64" "http://repo.example.org/current/x86_64" = true /\
  check_repo_arch "x86_64" "http://repo.example.org/current/" = false.
Proof.
  split; [reflexivity|]. split.
  - exact (check_repo_arch_last_component "x86_64" "http://repo.example.org/current"
             "x86_64" eq_refl).
  - exact (check_repo_arch_last_component "x86_64" "http://repo.example.org/current"
             "" eq_refl).
Defined.

(** X2.  A URI that [check_repo_arch] accepts has a '/', and what follows
    its last '/' is "noarch" or the machine name of the host, and is not
    empty.  So a URI without '/' and a URI that ends with '/' are
    rejected. *)
Theorem check_repo_arch_accepts (machine uri : string) :
  check_repo_arch machine uri = true ->
  exists pre comp,
    uri = String.append pre (String "/"%char comp) /\
    slash_free comp = true /\
    comp <> "" /\
    (comp = "noarch" \/ comp = machine).
Proof.
  unfold check_repo_arch. intros H.
  destruct (strrchr uri "/"%char) as [p|] eqn:Hp; [|discriminate].
  destruct (strrchr_inv uri p Hp) as (pre & comp & Huri & -> & Hc).
  exists pre, comp. split; [exact Huri|]. split; [exact Hc|].
  destruct (String.eqb comp "") eqn:He; [discriminate|].
  split; [now apply String.eqb_neq|].
  destruct (String.eqb comp "noarch") eqn:Hn; [left; now apply String.eqb_eq|].
  destruct (String.eqb comp machine) eqn:Hm; [right; now apply String.eqb_eq|].
  discriminate.
Qed.

Lemma check_repo_arch_accepts_witness :
  check_repo_arch "i686" "/var/repo/noarch" = true /\
  exists pre comp,
    "/var/repo/noarch" = String.append pre (String "/"%char comp) /\
    slash_free comp = true /\
    comp <> "" /\
    (comp = "noarch" \/ comp = "i686").
Proof.
  split; [reflexivity|].
  exact (check_repo_arch_accepts "i686" "/var/repo/noarch" eq_refl).
Defined.

(** ** sync_remote_repo *)

Lemma init_body_with_sync (w : world) (f : nat -> string -> Z) (i : nat)
    (uri : string) (q : list repository_pool) (ntotal nmissing : Z) :
  (forall j plist, access w j plist = 0%Z) ->
  init_body (with_sync w f) i uri q ntotal nmissing = init_body w i uri q ntotal nmissing.
Proof.
  intros Hacc. unfold init_body, sync_remote_repo, prop_string_cstring.
  cbn [with_sync un_machine xbps_pkg_index_plist access malloc_rpool malloc_rpi
       prop_string_cstring_errno prop_dictionary_internalize_from_zfile].
  destruct (duprepo q uri); [reflexivity|].
  destruct (negb (check_repo_arch (un_machine w) uri)); [reflexivity|].
  destruct (xbps_pkg_index_plist w i uri) as [plist|e]; [|reflexivity].
  now rewrite Hacc.
Qed.

Lemma init_loop_with_sync (w : world) (f : nat -> string -> Z) (objs : list string) :
  (forall j plist, access w j plist = 0%Z) ->
  forall i q ntotal nmissing,
    init_loop (with_sync w f) i objs q ntotal nmissing =
    init_loop w i objs q ntotal nmissing.
Proof.
  intros Hacc. induction objs as [|uri objs IH]; intros i q ntotal nmissing;
    cbn [init_loop]; [reflexivity|].
  rewrite (init_body_with_sync w f i uri q ntotal nmissing Hacc).
  destruct (init_body w i uri q ntotal nmissing); [apply IH | reflexivity].
Qed.

(** X3.  When every index file is readable ([access] answers 0), no
    index is fetched: the build returns the same code and leaves the same
    state whatever [xbps_repository_sync_pkg_index] would answer. *)
Theorem init_readable_index_not_fetched (w : world) (f : nat -> string -> Z)
    (st : state) :
  (forall j plist, access w j plist = 0%Z) ->
  xbps_repository_pool_init (with_sync w f) st = xbps_repository_pool_init w st.
Proof.
  intros Hacc. unfold xbps_repository_pool_init.
  cbn [with_sync prop_array_iterator_errno].
  destruct (repos_array (xhp st)) as [arr|]; [|reflexivity].
  destruct (repolist_initialized st); [reflexivity|].
  destruct (Nat.eqb (pa_refcnt arr) 0); [reflexivity|].
  destruct (Nat.eqb (List.length (pa_items arr)) 0); [reflexivity|].
  destruct (prop_array_iterator_errno w); [reflexivity|].
  now rewrite (init_loop_with_sync w f (pa_items arr) Hacc).
Qed.

Lemma init_readable_index_not_fetched_witness :
  (forall j plist, access good_world j plist = 0%Z) /\
  xbps_repository_pool_init (with_sync good_world (fun _ _ => (-1)%Z))
    (mk_state (Some (mk_array 1 ["/a/noarch"])) [] false) =
  xbps_repository_pool_init good_world
    (mk_state (Some (mk_array 1 ["/a/noarch"])) [] false).
Proof.
  split; [reflexivity|].
  exact (init_readable_index_not_fetched good_world (fun _ _ => (-1)%Z)
           (mk_state (Some (mk_array 1 ["/a/noarch"])) [] false)
           (fun _ _ => eq_refl)).
Defined.

(** ** xbps_repository_pool_release *)

(** X4.  Releasing is safe at any time and idempotent: it always leaves
    the flag clear and the handle as it was, it empties the queue of an
    initialized pool, it does nothing to a pool that is not initialized,
    and a second release in a row changes nothing. *)
Theorem release_idempotent (st : state) :
  repolist_initialized (xbps_repository_pool_release st) = false /\
  xhp (xbps_repository_pool_release st) = xhp st /\
  (repolist_initialized st = true ->
   rpool_queue (xbps_repository_pool_release st) = []) /\
  (repolist_initialized st = false -> xbps_repository_pool_release st = st) /\
  xbps_repository_pool_release (xbps_repository_pool_release st) =
  xbps_repository_pool_release st.
Proof.
  unfold xbps_repository_pool_release.
  destruct (repolist_initialized st) eqn:Hflag; cbn.
  - rewrite release_loop_nil. repeat split; congruence.
  - rewrite Hflag. cbn. repeat split; congruence.
Qed.

(** ** xbps_repository_pool_init: the entry checks *)

(** X5.  With an array that holds no object, no collaborator is
    consulted and the state is left as it is: a pool that is not
    initialized gets ENOTSUP, an initialized one gets 0 (the flag is tested
    before the count). *)
Theorem init_empty_array (w : world) (st : state) (arr : prop_array) :
  repos_array (xhp st) = Some arr ->
  pa_refcnt arr <> 0 ->
  pa_items arr = [] ->
  xbps_repository_pool_init w st =
  Some (if repolist_initialized st then 0%Z else ENOTSUP, st).
Proof.
  intros Harr Href Hitems. unfold xbps_repository_pool_init.
  rewrite Harr, Hitems. apply Nat.eqb_neq in Href. rewrite Href.
  now destruct (repolist_initialized st).
Qed.

Lemma init_empty_array_witness :
  pa_refcnt (mk_array 1 []) <> 0 /\
  xbps_repository_pool_init (bad_path_world EIO) (mk_state (Some (mk_array 1 [])) [] false) =
  Some (ENOTSUP, mk_state (Some (mk_array 1 [])) [] false).
Proof.
  assert (H : pa_refcnt (mk_array 1 []) <> 0) by (cbn; lia).
  split; [exact H|].
  exact (init_empty_array (bad_path_world EIO) (mk_state (Some (mk_array 1 [])) [] false)
           (mk_array 1 []) eq_refl H eq_refl).
Defined.

(** ** xbps_repository_pool_init: what a failure leaves *)

(** X6.  A build that returns a code other than 0 has neither set or
    cleared the flag nor released the configured array: the flag and the
    handle are as they were.  And a build that found the flag clear and
    left it set returned 0. *)
Theorem init_failure_keeps_flag_and_handle (w : world) (st st' : state) (rv : Z) :
  xbps_repository_pool_init w st = Some (rv, st') ->
  (rv <> 0%Z ->
   repolist_initialized st' = repolist_initialized st /\ xhp st' = xhp st) /\
  (repolist_initialized st = false -> repolist_initialized st' = true -> rv = 0%Z).
Proof.
  intros Hinit. unfold xbps_repository_pool_init in Hinit.
  destruct (repos_array (xhp st)) as [arr|] eqn:Harr;
    [|injection Hinit as <- <-; split; [auto | congruence]].
  destruct (repolist_initialized st) eqn:Hflag;
    [injection Hinit as <- <-; split; [auto | congruence]|].
  destruct (Nat.eqb (pa_refcnt arr) 0); [discriminate|].
  destruct (Nat.eqb (List.length (pa_items arr)) 0);
    [injection Hinit as <- <-; split; [auto | congruence]|].
  destruct (prop_array_iterator_errno w) as [e|].
  { rewrite init_out_not_initialized in Hinit by assumption.
    injection Hinit as <- <-. split; [auto | congruence]. }
  destruct (init_loop w 0 (pa_items arr) (rpool_queue st) 0 0) as [q nt nm|rv' q].
  - destruct (size_wrap (nt - nm) =? 0)%Z.
    + rewrite init_out_not_initialized in Hinit by assumption.
      injection Hinit as <- <-. cbn. split; [auto | congruence].
    + injection Hinit as <- <-. split; [congruence | reflexivity].
  - rewrite init_out_not_initialized in Hinit by assumption.
    injection Hinit as <- <-. cbn. split; [auto | congruence].
Qed.

Lemma init_failure_keeps_flag_and_handle_witness :
  let st := mk_state (Some (mk_array 1 ["/a/noarch"; "/b/noarch"])) [] false in
  let st' := mk_state (Some (mk_array 1 ["/a/noarch"; "/b/noarch"]))
               [mk_rpool 100 "/a/noarch" 0] false in
  xbps_repository_pool_init (bad_index_world 1 EIO) st = Some (EIO, st') /\
  EIO <> 0%Z /\
  repolist_initialized st' = repolist_initialized st /\ xhp st' = xhp st.
Proof.
  cbv zeta. split; [reflexivity|].
  assert (H : EIO <> 0%Z) by discriminate.
  split; [exact H|].
  exact (proj1 (init_failure_keeps_flag_and_handle (bad_index_world 1 EIO)
                  (mk_state (Some (mk_array 1 ["/a/noarch"; "/b/noarch"])) [] false)
                  (mk_state (Some (mk_array 1 ["/a/noarch"; "/b/noarch"]))
                     [mk_rpool 100 "/a/noarch" 0] false)
                  EIO eq_refl) H).
Defined.

(** ** xbps_repository_pool_init: the counters *)

Lemma size_wrap_range (z : Z) : (0 <= size_wrap z < size_modulus)%Z.
Proof. unfold size_wrap. apply Z.mod_pos_bound. reflexivity. Qed.

Lemma init_loop_range (w : world) (objs : list string) :
  forall i q ntotal nmissing q' ntotal' nmissing',
    (0 <= ntotal < size_modulus)%Z ->
    (0 <= nmissing < size_modulus)%Z ->
    init_loop w i objs q ntotal nmissing = Continue q' ntotal' nmissing' ->
    (0 <= ntotal' < size_modulus)%Z /\ (0 <= nmissing' < size_modulus)%Z.
Proof.
  induction objs as [|uri objs IH];
    intros i q ntotal nmissing q' ntotal' nmissing' Hnt Hnm Hloop;
    cbn [init_loop] in Hloop.
  - injection Hloop as _ <- <-. auto.
  - pose proof (init_body_spec w i uri q ntotal nmissing) as Hbody.
    destruct (init_body w i uri q ntotal nmissing) as [q1 nt1 nm1|rv1 q1];
      [|discriminate].
    inversion Hbody; subst;
      eapply IH; try exact Hloop; auto using size_wrap_range.
Qed.

(** X7.  When the loop has run over an array of fewer than 2^64 objects,
    the counters have not wrapped: [nmissing <= ntotal], [ntotal] is at
    most the number of objects, and the queue has grown by exactly
    [ntotal - nmissing] entries. *)
Theorem init_loop_counters (w : world) (objs : list string) (i : nat)
    (q q' : list repository_pool) (ntotal nmissing : Z) :
  (Z.of_nat (List.length objs) < size_modulus)%Z ->
  init_loop w i objs q 0 0 = Continue q' ntotal nmissing ->
  (0 <= nmissing <= ntotal)%Z /\
  (ntotal <= Z.of_nat (List.length objs))%Z /\
  Z.of_nat (List.length q') = (Z.of_nat (List.length q) + (ntotal - nmissing))%Z.
Proof.
  intros Hlen Hloop.
  assert (Hz : (0 <= 0 < size_modulus)%Z) by (split; [lia | reflexivity]).
  destruct (init_loop_range w objs i q 0 0 q' ntotal nmissing Hz Hz Hloop) as [Hnt Hnm].
  pose proof (init_loop_post w objs i q 0 0) as Hpost.
  rewrite Hloop in Hpost. cbn [loop_post] in Hpost.
  destruct Hpost as (new & kt & km & Hq & _ & _ & Ekt & Ekm & Hk & Hle).
  rewrite (size_wrap_small ntotal Hnt) in Ekt.
  rewrite (size_wrap_small nmissing Hnm) in Ekm.
  rewrite size_wrap_small in Ekt by lia.
  rewrite size_wrap_small in Ekm by lia.
  subst q'. rewrite length_app. lia.
Qed.

Lemma init_loop_counters_witness :
  (Z.of_nat (List.length ["/a/noarch"; "/b/i686"; "/a/noarch"]) < size_modulus)%Z /\
  init_loop good_world 0 ["/a/noarch"; "/b/i686"; "/a/noarch"] [] 0 0 =
  Continue [mk_rpool 100 "/a/noarch" 0] 2 1 /\
  (0 <= 1 <= 2)%Z /\
  (2 <= Z.of_nat (List.length ["/a/noarch"; "/b/i686"; "/a/noarch"]))%Z /\
  Z.of_nat (List.length [mk_rpool 100 "/a/noarch" 0]) =
  (Z.of_nat (List.length (@nil repository_pool)) + (2 - 1))%Z.
Proof.
  assert (Hlen : (Z.of_nat (List.length ["/a/noarch"; "/b/i686"; "/a/noarch"])
                  < size_modulus)%Z) by reflexivity.
  split; [exact Hlen|]. split; [reflexivity|].
  exact (init_loop_counters good_world ["/a/noarch"; "/b/i686"; "/a/noarch"] 0
           [] [mk_rpool 100 "/a/noarch" 0] 2 1 Hlen eq_refl).
Defined.

(** X8.  The pool is only ever marked initialized by a build that has
    itself registered at least one repository: when a build of an array of
    fewer than 2^64 objects finds the flag clear and leaves it set, the
    queue it leaves is the queue it found followed by at least one new
    entry. *)
Theorem init_initialized_registers (w : world) (st st' : state)
    (arr : prop_array) (rv : Z) :
  repos_array (xhp st) = Some arr ->
  (Z.of_nat (List.length (pa_items arr)) < size_modulus)%Z ->
  repolist_initialized st = false ->
  xbps_repository_pool_init w st = Some (rv, st') ->
  repolist_initialized st' = true ->
  exists n new, rpool_queue st' = rpool_queue st ++ n :: new.
Proof.
  intros Harr Hlen Hflag Hinit Hflag'.
  destruct (init_success_inv w st st' arr rv Harr Hflag Hinit Hflag')
    as (_ & _ & _ & _ & q & nt & nm & Hloop & Hz & ->).
  destruct (init_loop_difference w _ _ _ _ _ Hlen Hloop) as (new & Hq & Hdiff).
  cbn [rpool_queue]. destruct new as [|n new].
  - exfalso. apply Hz. rewrite Hdiff. reflexivity.
  - now exists n, new.
Qed.

Lemma init_initialized_registers_witness :
  let arr := mk_array 1 ["/a/i686"; "/b/noarch"] in
  let st := mk_state (Some arr) [] false in
  let st' := mk_state (Some (mk_array 0 ["/a/i686"; "/b/noarch"]))
               [mk_rpool 101 "/b/noarch" 1] true in
  xbps_repository_pool_init good_world st = Some (0%Z, st') /\
  exists n new, rpool_queue st' = rpool_queue st ++ n :: new.
Proof.
  cbv zeta. split; [reflexivity|].
  exact (init_initialized_registers good_world
           (mk_state (Some (mk_array 1 ["/a/i686"; "/b/noarch"])) [] false)
           (mk_state (Some (mk_array 0 ["/a/i686"; "/b/noarch"]))
              [mk_rpool 101 "/b/noarch" 1] true)
           (mk_array 1 ["/a/i686"; "/b/noarch"]) 0%Z
           eq_refl eq_refl eq_refl eq_refl eq_refl).
Defined.

(** ** xbps_repository_pool_init: where the entries come from *)

Lemma init_body_built (w : world) (i : nat) (uri : string)
    (q : list repository_pool) (ntotal nmissing : Z) :
  ctrl_queue (init_body w i uri q ntotal nmissing) = q \/
  exists p d,
    ctrl_queue (init_body w i uri q ntotal nmissing) = q ++ [mk_rpool p uri d] /\
    registers w i uri p d.
Proof.
  unfold init_body, prop_string_cstring, SIMPLEQ_INSERT_TAIL.
  destruct (duprepo q uri); [now left|].
  destruct (check_repo_arch (un_machine w) uri) eqn:Harch; cbn [negb]; [|now left].
  destruct (xbps_pkg_index_plist w i uri) as [plist|e] eqn:Hplist; [|now left].
  destruct (sync_remote_repo w i plist uri =? -1)%Z eqn:Hsync; [now left|].
  destruct (malloc_rpool w i) as [p|e] eqn:Hp; [|now left].
  destruct (malloc_rpi w i) as [p'|e] eqn:Hp'; [|now left].
  destruct (prop_string_cstring_errno w i) as [e|] eqn:Hcs; [now left|].
  destruct (prop_dictionary_internalize_from_zfile w i plist) as [d|e] eqn:Hd.
  - right. exists p, d. split; [reflexivity|].
    exists plist. split; [|split; assumption].
    apply Z.eqb_neq in Hsync. repeat split; eauto.
  - destruct (e =? ENOENT)%Z; now left.
Qed.

Lemma built_at_shift (w : world) (uri : string) (objs : list string) (i : nat)
    (n : repository_pool) :
  built_at w objs (S i) n -> built_at w (uri :: objs) i n.
Proof.
  intros (k & Hk & Hreg). exists (S k). split; [exact Hk|].
  now rewrite Nat.add_succ_r.
Qed.

Lemma init_loop_built (w : world) (objs : list string) :
  forall i q ntotal nmissing,
  exists new,
    ctrl_queue (init_loop w i objs q ntotal nmissing) = q ++ new /\
    Forall (built_at w objs i) new.
Proof.
  induction objs as [|uri objs IH]; intros i q ntotal nmissing; cbn [init_loop].
  - exists []. now rewrite app_nil_r.
  - pose proof (init_body_built w i uri q ntotal nmissing) as Hbody.
    destruct (init_body w i uri q ntotal nmissing) as [q1 nt1 nm1|rv1 q1];
      cbn [ctrl_queue] in Hbody.
    + destruct (IH (S i) q1 nt1 nm1) as (new & Hq & Hall).
      assert (Hall' : Forall (built_at w (uri :: objs) i) new).
      { eapply Forall_impl; [|exact Hall]. intros n. apply built_at_shift. }
      destruct Hbody as [-> | (p & d & -> & Hreg)].
      * now exists new.
      * exists (mk_rpool p uri d :: new). rewrite Hq, <- app_assoc.
        split; [reflexivity|]. constructor; [|exact Hall'].
        exists 0. rewrite Nat.add_0_r. split; [reflexivity | exact Hreg].
    + cbn [ctrl_queue]. destruct Hbody as [-> | (p & d & -> & Hreg)].
      * exists []. now rewrite app_nil_r.
      * exists [mk_rpool p uri d]. split; [reflexivity|].
        constructor; [|constructor].
        exists 0. rewrite Nat.add_0_r. split; [reflexivity | exact Hreg].
Qed.

(** What a build leaves in the queue, in terms of the loop. *)
Lemma init_queue_cases (w : world) (st st' : state) (rv : Z) :
  xbps_repository_pool_init w st = Some (rv, st') ->
  rpool_queue st' = rpool_queue st \/
  exists arr,
    repos_array (xhp st) = Some arr /\
    rpool_queue st' =
    ctrl_queue (init_loop w 0 (pa_items arr) (rpool_queue st) 0 0).
Proof.
  intros Hinit. unfold xbps_repository_pool_init in Hinit.
  destruct (repos_array (xhp st)) as [arr|] eqn:Harr;
    [|injection Hinit as _ <-; now left].
  destruct (repolist_initialized st) eqn:Hflag; [injection Hinit as _ <-; now left|].
  destruct (Nat.eqb (pa_refcnt arr) 0); [discriminate|].
  destruct (Nat.eqb (List.length (pa_items arr)) 0); [injection Hinit as _ <-; now left|].
  destruct (prop_array_iterator_errno w) as [e|].
  { rewrite init_out_not_initialized in Hinit by assumption.
    injection Hinit as _ <-. now left. }
  right. exists arr. split; [reflexivity|].
  destruct (init_loop w 0 (pa_items arr) (rpool_queue st) 0 0) as [q nt nm|rv' q].
  - destruct (size_wrap (nt - nm) =? 0)%Z.
    + rewrite init_out_not_initialized in Hinit by assumption.
      now injection Hinit as _ <-.
    + now injection Hinit as _ <-.
  - rewrite init_out_not_initialized in Hinit by assumption.
    now injection Hinit as _ <-.
Qed.

(** X9.  Whatever a build returns, every entry it has appended to the
    queue was built for one of the configured objects: its URI is that
    object, its node lives where [malloc] put it, its dictionary is the one
    internalized from the index file of that object, and that object went
    through every stage of the loop body without a failure.  In
    particular the URI of every new entry is one of the configured
    locations and passes [check_repo_arch]. *)
Theorem init_entries_built_from_array (w : world) (st st' : state)
    (arr : prop_array) (rv : Z) :
  repos_array (xhp st) = Some arr ->
  xbps_repository_pool_init w st = Some (rv, st') ->
  exists new,
    rpool_queue st' = rpool_queue st ++ new /\
    Forall (built_at w (pa_items arr) 0) new /\
    Forall (fun n => In (rpi_uri (rpi n)) (pa_items arr) /\
                     check_repo_arch (un_machine w) (rpi_uri (rpi n)) = true) new.
Proof.
  intros Harr Hinit.
  assert (Hnew : exists new,
             rpool_queue st' = rpool_queue st ++ new /\
             Forall (built_at w (pa_items arr) 0) new).
  { destruct (init_queue_cases w st st' rv Hinit) as [-> | (arr' & Harr' & ->)].
    - exists []. now rewrite app_nil_r.
    - rewrite Harr in Harr'. injection Harr' as <-. apply init_loop_built. }
  destruct Hnew as (new & Hq & Hall). exists new.
  split; [exact Hq|]. split; [exact Hall|].
  eapply Forall_impl; [|exact Hall].
  intros n (k & Hk & plist & (Harch & _) & _). split; [|exact Harch].
  eapply nth_error_In. exact Hk.
Qed.

Lemma init_entries_built_from_array_witness :
  let arr := mk_array 1 ["/a/i686"; "/b/noarch"] in
  let st := mk_state (Some arr) [] false in
  let st' := mk_state (Some (mk_array 0 ["/a/i686"; "/b/noarch"]))
               [mk_rpool 101 "/b/noarch" 1] true in
  xbps_repository_pool_init good_world st = Some (0%Z, st') /\
  exists new,
    rpool_queue st' = rpool_queue st ++ new /\
    Forall (built_at good_world (pa_items arr) 0) new /\
    Forall (fun n => In (rpi_uri (rpi n)) (pa_items arr) /\
                     check_repo_arch (un_machine good_world) (rpi_uri (rpi n)) = true) new.
Proof.
  cbv zeta. split; [reflexivity|].
  exact (init_entries_built_from_array good_world
           (mk_state (Some (mk_array 1 ["/a/i686"; "/b/noarch"])) [] false)
           (mk_state (Some (mk_array 0 ["/a/i686"; "/b/noarch"]))
              [mk_rpool 101 "/b/noarch" 1] true)
           (mk_array 1 ["/a/i686"; "/b/noarch"]) 0%Z eq_refl eq_refl).
Defined.

(** ** xbps_repository_pool_init: the addresses of the nodes *)

Lemma init_loop_addrs (w : world) (objs : list string) :
  (forall i j p, malloc_rpool w i = inl p -> malloc_rpool w j = inl p -> i = j) ->
  forall i q ntotal nmissing,
    NoDup (addrs q) ->
    (forall j p, i <= j -> malloc_rpool w j = inl p -> ~ In p (addrs q)) ->
    NoDup (addrs (ctrl_queue (init_loop w i objs q ntotal nmissing))).
Proof.
  intros Hinj. induction objs as [|uri objs IH];
    intros i q ntotal nmissing Hnd Hfresh; cbn [init_loop]; [exact Hnd|].
  pose proof (init_body_spec w i uri q ntotal nmissing) as Hbody.
  destruct (init_body w i uri q ntotal nmissing) as [q1 nt1 nm1|rv1 q1];
    inversion Hbody; subst; cbn [ctrl_queue]; try exact Hnd.
  - apply IH; [exact Hnd|]. intros j p Hj. apply Hfresh. lia.
  - apply IH; [exact Hnd|]. intros j p Hj. apply Hfresh. lia.
  - match goal with H : malloc_rpool w i = inl ?p |- _ => rename H into Hp end.
    apply IH.
    + rewrite addrs_app. cbn [addrs map mk_rpool rp_addr].
      apply NoDup_app; [exact Hnd | repeat constructor; auto |].
      intros a Ha [E | []]. subst a. exact (Hfresh i _ (le_n i) Hp Ha).
    + intros j p' Hj Hp' Hin. rewrite addrs_app in Hin.
      apply in_app_or in Hin. destruct Hin as [Hin | [<- | []]].
      * apply (Hfresh j p'); [lia | exact Hp' | exact Hin].
      * cbn [mk_rpool rp_addr] in Hp'.
        pose proof (Hinj _ _ _ Hp Hp'). lia.
Qed.

Lemma init_keeps_addrs_distinct (w : world) (st st' : state) (rv : Z) :
  fresh_malloc w (rpool_queue st) ->
  NoDup (addrs (rpool_queue st)) ->
  xbps_repository_pool_init w st = Some (rv, st') ->
  NoDup (addrs (rpool_queue st')).
Proof.
  intros [Hfresh Hinj] Hnd Hinit.
  destruct (init_queue_cases w st st' rv Hinit) as [-> | (arr & _ & ->)];
    [exact Hnd|].
  apply init_loop_addrs; [exact Hinj | exact Hnd|].
  intros j p _. apply Hfresh.
Qed.

(** X10.  A build keeps the registry well formed.  If [malloc] behaves
    (it never returns the address of a node that is in the queue, nor the
    same address twice during the build), then from a queue whose nodes
    have distinct addresses and distinct URIs the build, whatever it
    returns, leaves a queue whose nodes have distinct addresses and
    distinct URIs. *)
Theorem init_keeps_registry_well_formed (w : world) (st st' : state) (rv : Z) :
  fresh_malloc w (rpool_queue st) ->
  NoDup (addrs (rpool_queue st)) ->
  NoDup (uris (rpool_queue st)) ->
  xbps_repository_pool_init w st = Some (rv, st') ->
  NoDup (addrs (rpool_queue st')) /\ NoDup (uris (rpool_queue st')).
Proof.
  intros Hfresh Hnda Hndu Hinit. split.
  - exact (init_keeps_addrs_distinct w st st' rv Hfresh Hnda Hinit).
  - exact (proj1 (init_registry_dedup_order w st st' rv Hinit Hndu)).
Qed.

Lemma good_world_fresh_malloc : fresh_malloc good_world [].
Proof.
  split.
  - intros i p _ [].
  - intros i j p Hi Hj. cbn in Hi, Hj. injection Hi as <-. injection Hj as Hj. lia.
Qed.

Lemma init_keeps_registry_well_formed_witness :
  let st := mk_state (Some (mk_array 1 ["/a/noarch"; "/b/noarch"])) [] false in
  let st' := mk_state (Some (mk_array 0 ["/a/noarch"; "/b/noarch"]))
               [mk_rpool 100 "/a/noarch" 0; mk_rpool 101 "/b/noarch" 1] true in
  fresh_malloc good_world (rpool_queue st) /\
  xbps_repository_pool_init good_world st = Some (0%Z, st') /\
  NoDup (addrs (rpool_queue st')) /\ NoDup (uris (rpool_queue st')).
Proof.
  cbv zeta. split; [exact good_world_fresh_malloc|]. split; [reflexivity|].
  exact (init_keeps_registry_well_formed good_world
           (mk_state (Some (mk_array 1 ["/a/noarch"; "/b/noarch"])) [] false)
           (mk_state (Some (mk_array 0 ["/a/noarch"; "/b/noarch"]))
              [mk_rpool 100 "/a/noarch" 0; mk_rpool 101 "/b/noarch" 1] true)
           0%Z good_world_fresh_malloc (NoDup_nil _) (NoDup_nil _) eq_refl).
Defined.

(** ** xbps_repository_pool_foreach *)

(** X11.  When the build at the start of [xbps_repository_pool_foreach]
    returns a code other than 0, that code is returned at once: the
    callback is not invoked, its argument is untouched and the state is the
    one the build left, whatever the bound on the iterations. *)
Theorem foreach_init_failure {A : Type} (w : world) (fuel : nat) (fn : callback A)
    (arg : A) (st st1 : state) (rv : Z) :
  xbps_repository_pool_init w st = Some (rv, st1) ->
  rv <> 0%Z ->
  xbps_repository_pool_foreach w fuel fn arg st =
  Returns {| fr_rv := rv; fr_arg := arg; fr_state := st1; fr_visits := [] |}.
Proof.
  intros Hinit Hrv. unfold xbps_repository_pool_foreach. rewrite Hinit.
  apply Z.eqb_neq in Hrv. now rewrite Hrv.
Qed.

Lemma foreach_init_failure_witness :
  let st := mk_state (Some (mk_array 1 ["/a/i686"])) [] false in
  xbps_repository_pool_init good_world st = Some (ENOTSUP, st) /\
  ENOTSUP <> 0%Z /\
  xbps_repository_pool_foreach good_world 0 stop_at_second 0 st =
  Returns {| fr_rv := ENOTSUP; fr_arg := 0; fr_state := st; fr_visits := [] |}.
Proof.
  cbv zeta. assert (H : ENOTSUP <> 0%Z) by discriminate.
  split; [reflexivity|]. split; [exact H|].
  exact (foreach_init_failure good_world 0 stop_at_second 0
           (mk_state (Some (mk_array 1 ["/a/i686"])) [] false)
           (mk_state (Some (mk_array 1 ["/a/i686"])) [] false)
           ENOTSUP eq_refl H).
Defined.



Lemma foreach_loop_state {A : Type} (fn : callback A) :
  (forall r a s, snd (fn r a s) = s) ->
  forall fuel var rv arg st f,
    foreach_loop fuel fn var rv arg st = Returns f -> fr_state f = st.
Proof.
  intros Hfn. induction fuel as [|fuel IH]; intros var rv arg st f Hrun.
  - destruct var; cbn in Hrun; [discriminate|]. now injection Hrun as <-.
  - destruct var as [p|]; cbn [foreach_loop] in Hrun; [|now injection Hrun as <-].
    destruct (sqe_lookup (rpool_queue st) p) as [[rpool rpool_new]|]; [|discriminate].
    pose proof (Hfn (rpi rpool) arg st) as Hs.
    destruct (fn (rpi rpool) arg st) as [[[rv' done] arg'] st'].
    cbn [snd] in Hs. subst st'.
    destruct (negb (rv' =? 0)%Z || done); [now injection Hrun as <-|].
    destruct (foreach_loop fuel fn rpool_new rv' arg' st) as [f0| |] eqn:Hrec;
      cbn [add_visit] in Hrun; try discriminate.
    injection Hrun as <-. cbn [fr_state]. eapply IH. exact Hrec.
Qed.

(** X13.  The traversal itself writes nothing: with a callback that
    hands the state back as it received it, whatever its status and its
    stop signal, the state [xbps_repository_pool_foreach] leaves is the
    state the build at its start left. *)
Theorem foreach_leaves_pool {A : Type} (w : world) (fuel : nat) (fn : callback A)
    (arg : A) (st st1 : state) (rv : Z) (f : foreach_result A) :
  xbps_repository_pool_init w st = Some (rv, st1) ->
  (forall r a s, snd (fn r a s) = s) ->
  xbps_repository_pool_foreach w fuel fn arg st = Returns f ->
  fr_state f = st1.
Proof.
  intros Hinit Hfn Hrun. unfold xbps_repository_pool_foreach in Hrun.
  rewrite Hinit in Hrun. destruct (negb (rv =? 0)%Z).
  - now injection Hrun as <-.
  - eapply (foreach_loop_state fn Hfn). exact Hrun.
Qed.

Lemma foreach_leaves_pool_witness :
  let f := {| fr_rv := 7%Z; fr_arg := 2; fr_state := three_repos;
              fr_visits :=
                [ {| v_rpi := {| rpi_uri := "/a/noarch"; rpi_repod := 0 |};
                     v_rv := 0%Z; v_done := false |};
                  {| v_rpi := {| rpi_uri := "/b/noarch"; rpi_repod := 1 |};
                     v_rv := 7%Z; v_done := true |} ] |} in
  xbps_repository_pool_init good_world three_repos = Some (0%Z, three_repos) /\
  (forall r a s, snd (stop_at_second r a s) = s) /\
  xbps_repository_pool_foreach good_world 3 stop_at_second 0 three_repos = Returns f /\
  fr_state f = three_repos.
Proof.
  intros f.
  assert (Hfn : forall r a s, snd (stop_at_second r a s) = s).
  { intros r a s. unfold stop_at_second. now destruct (Nat.eqb a 1). }
  split; [reflexivity|]. split; [exact Hfn|]. split; [reflexivity|].
  exact (foreach_leaves_pool good_world 3 stop_at_second 0 three_repos three_repos 0%Z
           f eq_refl Hfn eq_refl).
Defined.

(** ** xbps_repository_pool_init: no usable location is dropped *)

Lemma uris_mono_loop (w : world) (objs : list string) (i : nat)
    (q q' : list repository_pool) (ntotal nmissing ntotal' nmissing' : Z) (u : string) :
  init_loop w i objs q ntotal nmissing = Continue q' ntotal' nmissing' ->
  In u (uris q) -> In u (uris q').
Proof.
  intros Hloop Hin.
  pose proof (init_loop_post w objs i q ntotal nmissing) as Hpost.
  rewrite Hloop in Hpost. cbn [loop_post] in Hpost.
  destruct Hpost as (new & _ & _ & -> & _).
  rewrite uris_app. apply in_or_app. now left.
Qed.

Lemma init_loop_complete (w : world) (objs : list string) :
  forall i q ntotal nmissing q' ntotal' nmissing',
    init_loop w i objs q ntotal nmissing = Continue q' ntotal' nmissing' ->
    forall k uri p d,
      nth_error objs k = Some uri ->
      registers w (i + k) uri p d ->
      In uri (uris q').
Proof.
  induction objs as [|u objs IH];
    intros i q ntotal nmissing q' ntotal' nmissing' Hloop k uri p d Hk Hreg.
  - destruct k; discriminate.
  - cbn [init_loop] in Hloop.
    destruct (init_body w i u q ntotal nmissing) as [q1 nt1 nm1|rv1 q1] eqn:Hbody;
      [|discriminate].
    destruct k as [|k].
    + cbn in Hk. injection Hk as ->. rewrite Nat.add_0_r in Hreg.
      eapply uris_mono_loop; [exact Hloop|].
      destruct (duprepo q uri) eqn:Hdup.
      * rewrite init_body_dup in Hbody by assumption. injection Hbody as <- _ _.
        clear - Hdup. induction q as [|n q IH]; cbn in *; [discriminate|].
        apply orb_true_iff in Hdup. destruct Hdup as [H | H].
        -- left. now apply String.eqb_eq.
        -- right. now apply IH.
      * rewrite (init_body_registers w i uri q ntotal nmissing p d Hdup Hreg) in Hbody.
        injection Hbody as <- _ _. rewrite uris_app. apply in_or_app. right.
        now left.
    + cbn in Hk. rewrite Nat.add_succ_r in Hreg.
      exact (IH (S i) q1 nt1 nm1 q' ntotal' nmissing' Hloop k uri p d Hk Hreg).
Qed.

(** X14.  No usable location is dropped.  When a build finds the flag
    clear and leaves it set, every configured location for which every
    stage of the loop body succeeds (architecture, path, index file,
    allocations, copy, internalization) has an entry in the registry the
    build leaves. *)
Theorem init_registers_every_usable_location (w : world) (st st' : state)
    (arr : prop_array) (rv : Z) :
  repos_array (xhp st) = Some arr ->
  repolist_initialized st = false ->
  xbps_repository_pool_init w st = Some (rv, st') ->
  repolist_initialized st' = true ->
  forall k uri p d,
    nth_error (pa_items arr) k = Some uri ->
    registers w k uri p d ->
    In uri (uris (rpool_queue st')).
Proof.
  intros Harr Hflag Hinit Hflag' k uri p d Hk Hreg.
  destruct (init_success_inv w st st' arr rv Harr Hflag Hinit Hflag')
    as (_ & _ & _ & _ & q & nt & nm & Hloop & _ & ->).
  cbn [rpool_queue].
  exact (init_loop_complete w (pa_items arr) 0 _ 0%Z 0%Z q nt nm Hloop k uri p d Hk Hreg).
Qed.

Lemma init_registers_every_usable_location_witness :
  let arr := mk_array 1 ["/a/i686"; "/b/noarch"] in
  let st := mk_state (Some arr) [] false in
  let st' := mk_state (Some (mk_array 0 ["/a/i686"; "/b/noarch"]))
               [mk_rpool 101 "/b/noarch" 1] true in
  xbps_repository_pool_init good_world st = Some (0%Z, st') /\
  registers good_world 1 "/b/noarch" 101 1 /\
  In "/b/noarch" (uris (rpool_queue st')).
Proof.
  cbv zeta. split; [reflexivity|].
  pose proof (good_world_registers 1 "/b/noarch" eq_refl) as Hreg.
  split; [exact Hreg|].
  exact (init_registers_every_usable_location good_world
           (mk_state (Some (mk_array 1 ["/a/i686"; "/b/noarch"])) [] false)
           (mk_state (Some (mk_array 0 ["/a/i686"; "/b/noarch"]))
              [mk_rpool 101 "/b/noarch" 1] true)
           (mk_array 1 ["/a/i686"; "/b/noarch"]) 0%Z
           eq_refl eq_refl eq_refl eq_refl 1 "/b/noarch" 101 1 eq_refl Hreg).
Defined.
